(** * Factory: a shallow embedding of [src/factory.ts]

    The TypeScript class [Factory<Model>] is a fluent test-data builder.  A
    subclass supplies the blueprint method [definition]; [count] and [state]
    configure the next build; [make] and [makeOne] build; [create] and
    [createOne] are stubs that throw.

    Modelling choices, each taken from the source:
    - JavaScript objects live in a heap ([gmap loc obj]); a Model is a
      reference ([loc]) to a heap object, so that [Object.assign] writing into
      its target, and aliasing between the caller's overrides object and the
      models, are visible.
    - The builder's two private fields are the record [Factory]; the world a
      method runs in is the heap together with the builder ([this]).
    - The blueprint and the state callbacks are user code: arbitrary
      transformers of the world that return a reference or throw.  They may
      touch the builder itself (the fields are reachable at run time).
    - [number] is the JavaScript number type: finite values as exact
      rationals, plus NaN and the two infinities.  Every finite double is a
      rational, so the two comparisons the class performs ([amount < 1] and
      [i < this.instances]) are modelled exactly.
    - [throw] is an outcome of its own, carrying the thrown value and the
      world at the point of the throw.  The [for] loop of [make] re-reads
      [this.instances] on every iteration, so it is given fuel.
    - Not modelled: the limits of the machine (memory, the maximal length of
      an array, the precision of the loop counter beyond 2^53), property
      order, objects on which [Object.assign] itself would throw, and effects
      of converting a thrown value to a string (the conversion yields a
      string or throws, and leaves the world as it is). *)

From Stdlib Require Import ZArith QArith Qround.
From stdpp Require Import gmap strings list fin_maps.

Local Open Scope Z_scope.

(** ** Numbers *)

Module Number.

Inductive number : Type :=
| Finite (q : Q)
| NaN
| PosInfinity
| NegInfinity.

Definition of_Z (z : Z) : number := Finite (inject_Z z).

(** JavaScript [a < b]: false as soon as one side is NaN. *)
Definition lt (a b : number) : bool :=
  match a, b with
  | NaN, _ | _, NaN => false
  | Finite x, Finite y => (Qnum x * Zpos (Qden y) <? Qnum y * Zpos (Qden x))
  | Finite _, PosInfinity => true
  | Finite _, NegInfinity => false
  | PosInfinity, _ => false
  | NegInfinity, NegInfinity => false
  | NegInfinity, _ => true
  end.

(** JavaScript [a >= b]. *)
Definition ge (a b : number) : bool :=
  match a, b with
  | NaN, _ | _, NaN => false
  | Finite x, Finite y => (Qnum y * Zpos (Qden x) <=? Qnum x * Zpos (Qden y))
  | Finite _, PosInfinity => false
  | Finite _, NegInfinity => true
  | PosInfinity, _ => true
  | NegInfinity, NegInfinity => true
  | NegInfinity, _ => false
  end.

End Number.
Export Number.

Arguments lt : simpl never.
Arguments ge : simpl never.
Arguments of_Z : simpl never.

(** ** Values, objects, the heap *)

Definition loc := positive.

Inductive value : Type :=
| VUndefined
| VNull
| VBool (b : bool)
| VNumber (n : number)
| VString (s : string)
| VRef (l : loc).

(** An object: its own enumerable string-keyed properties. *)
Abbreviation obj := (gmap string value).
Abbreviation heap_t := (gmap loc obj).

(** A state callback is stored in [stateCallbacks] as a closure; the model
    names each closure by an identifier and keeps the code in a table. *)
Definition cbid := nat.

(** The two private fields of [Factory]. *)
Record Factory : Type := mkFactory {
  stateCallbacks : list cbid;
  instances : number
}.

Record world : Type := mkWorld {
  heap : heap_t;
  this : Factory
}.

Definition set_heap (h : heap_t) (w : world) : world :=
  {| heap := h; this := this w |}.

Definition set_this (f : Factory) (w : world) : world :=
  {| heap := heap w; this := f |}.

(** ** Thrown values and outcomes *)

(** What a [throw] carries, as far as the class looks at it: an [Error]
    object with its string [message]; another value that [String(value)]
    converts; or a value for which reading the message or converting to a
    string itself throws ([Object.create(null)], an object whose [toString]
    throws, an [Error] whose [message] is a getter that throws or a symbol),
    with what that throws. *)
Inductive thrown : Type :=
| ErrorObj (message : string)
| NonError (as_string : string)
| Unprintable (raised : thrown).

(** What evaluating a string-valued expression yields: the string, or the
    value it throws. *)
Inductive conversion : Type :=
| Text (s : string)
| Raises (raised : thrown).

(** [error instanceof Error ? error.message : String(error)], as spliced
    into the template literal. *)
Definition message_of (error : thrown) : conversion :=
  match error with
  | ErrorObj message => Text message
  | NonError as_string => Text as_string
  | Unprintable raised => Raises raised
  end.

Inductive outcome (A : Type) : Type :=
| Returns (a : A) (w : world)
| Throws (e : thrown) (w : world)
| OutOfFuel.
Arguments Returns {A} a w.
Arguments Throws {A} e w.
Arguments OutOfFuel {A}.

(** A computation: runs in a world, and returns, throws or runs out of fuel. *)
Definition js (A : Type) : Type := world → outcome A.

Definition ret {A} (a : A) : js A := λ w, Returns a w.

Definition bind {A B} (m : js A) (k : A → js B) : js B := λ w,
  match m w with
  | Returns a w' => k a w'
  | Throws e w' => Throws e w'
  | OutOfFuel => OutOfFuel
  end.

Notation "'let!' x ':=' m 'in' k" := (bind m (λ x, k))
  (at level 10, x name, m at level 100, k at level 200, only parsing).

(** The world an outcome ends in; a run that is out of fuel has none, and
    the starting world is given back. *)
Definition world_after {A} (w0 : world) (r : outcome A) : world :=
  match r with
  | Returns _ w => w
  | Throws _ w => w
  | OutOfFuel => w0
  end.

(** ** User code: the subclass and its state callbacks *)

(** [definition] is the abstract method every subclass implements;
    [callback c] is the code of the closure named [c]. *)
Record Program : Type := mkProgram {
  definition : js loc;
  callback : cbid → loc → js loc
}.

(** The receiver, which [count] and [state] return for chaining. *)
Inductive receiver : Type := This.

(** ** The class *)

Definition initial : Factory :=
  {| stateCallbacks := []; instances := of_Z 1 |}.

(** The field initialisers run, then the constructor body with its
    [new.target === Factory] guard.  When the guard throws, the object whose
    fields were initialised is not handed to anyone. *)
Definition constructor (new_target_is_Factory : bool) : js receiver := λ w,
  let w := set_this initial w in
  if new_target_is_Factory
  then Throws (ErrorObj "Abstract class cannot be instantiated directly.") w
  else Returns This w.

Definition count (amount : number) : js receiver := λ w,
  if lt amount (of_Z 1)
  then Throws (ErrorObj "Count must be greater than 0") w
  else Returns This
         (set_this {| stateCallbacks := stateCallbacks (this w);
                      instances := amount |} w).

Definition state (c : cbid) : js receiver := λ w,
  Returns This
    (set_this {| stateCallbacks := stateCallbacks (this w) ++ [c];
                 instances := instances (this w) |} w).

(** The own properties of the [overrides] argument.  [None] is the default
    argument [{}], an empty object no one else holds a reference to. *)
Definition properties (overrides : option loc) (h : heap_t) : obj :=
  match overrides with
  | Some o => h !!! o
  | None => ∅
  end.

(** [Object.assign(target, overrides)]: every property of the source is
    written into the target, which is returned. *)
Definition Object_assign (target : loc) (overrides : option loc) : js loc := λ w,
  Returns target
    (set_heap (<[target := properties overrides (heap w) ∪ (heap w !!! target)]>
                 (heap w)) w).

(** [callbacks.reduce((acc, callback) => callback(acc), model)] *)
Fixpoint reduce (P : Program) (callbacks : list cbid) (acc : loc) : js loc :=
  match callbacks with
  | [] => ret acc
  | c :: rest => let! acc := callback P c acc in reduce P rest acc
  end.

(** The body of the [for] loop, up to the value pushed on [output]. *)
Definition make_instance (P : Program) (overrides : option loc) : js loc :=
  let! blueprint := definition P in
  let! model := Object_assign blueprint overrides in
  let! finalModel := (λ w, reduce P (stateCallbacks (this w)) model w) in
  ret finalModel.

(** [for (let i = 0; i < this.instances; i++) { ...; output.push(finalModel) }] *)
Fixpoint make_loop (P : Program) (fuel : nat) (i : Z) (overrides : option loc)
    (output : list loc) : js (list loc) := λ w,
  match fuel with
  | O => OutOfFuel
  | S fuel =>
      if lt (of_Z i) (instances (this w))
      then (let! finalModel := make_instance P overrides in
            make_loop P fuel (i + 1) overrides (output ++ [finalModel])) w
      else Returns output w
  end.

(** The [try] block of [make]. *)
Definition make_try (P : Program) (fuel : nat) (overrides : option loc)
    : js (list loc) :=
  let! output := make_loop P fuel 0 overrides [] in
  λ w, Returns output (set_this initial w).

(** [make]: the [try] block, and the [catch] that wraps what was thrown.
    The message of the new [Error] is built first; when building it throws,
    that is what leaves the [catch]. *)
Definition make (P : Program) (fuel : nat) (overrides : option loc)
    : js (list loc) := λ w,
  match make_try P fuel overrides w with
  | Returns output w' => Returns output w'
  | Throws error w' =>
      match message_of error with
      | Text message => Throws (ErrorObj ("Failed to make model: " ++ message)) w'
      | Raises raised => Throws raised w'
      end
  | OutOfFuel => OutOfFuel
  end.

(** [make(overrides)[0]]; [None] is [undefined], the value of an index
    past the end of an array. *)
Definition makeOne (P : Program) (fuel : nat) (overrides : option loc)
    : js (option loc) :=
  let! output := make P fuel overrides in
  ret (output !! 0%nat).

Definition create (P : Program) (_overrides : option loc) : js (list loc) := λ w,
  Throws (ErrorObj "Must implement the DB layer to use Create.") w.

Definition createOne (P : Program) (overrides : option loc)
    : js (option loc) :=
  let! output := create P overrides in
  ret (output !! 0%nat).

(** ** Example programs *)

(** [{...}]: a new object with the given properties. *)
Definition alloc (properties : obj) : js loc := λ w,
  let l := fresh (dom (heap w)) in
  Returns l (set_heap (<[l := properties]> (heap w)) w).

(** The factory of [factory.test.ts]. *)
Module TestFactory.

(** [return { example: 'I AM AN EXAMPLE' }] *)
Definition definition : js loc :=
  alloc {[ "example" := VString "I AM AN EXAMPLE" ]}.

Definition exampleState : cbid := 0%nat.

(** The function [exampleState] computes: it sets the [state] property. *)
Definition set_state (m : obj) : obj :=
  <["state" := VString "This was an example state!"]> m.

(** [Object.assign(attributes, { state: 'This was an example state!' })] *)
Definition callback (c : cbid) (attributes : loc) : js loc := λ w,
  match c with
  | O =>
      Returns attributes
        (set_heap
           (<[attributes := set_state (heap w !!! attributes)]> (heap w)) w)
  | S _ => Returns attributes w
  end.

Definition program : Program := mkProgram definition callback.

End TestFactory.

(** A factory whose blueprint throws. *)
Module BrokenFactory.

(** [throw new Error('boom')] *)
Definition definition : js loc := λ w, Throws (ErrorObj "boom") w.

Definition program : Program := mkProgram definition TestFactory.callback.

End BrokenFactory.

(** A factory whose state callback is pure: it returns a copy,
    [{ ...attributes, state: 'X' }], and writes nowhere else. *)
Module SpreadFactory.

Definition callback (c : cbid) (attributes : loc) : js loc := λ w,
  alloc (<["state" := VString "X"]> (heap w !!! attributes)) w.

Definition program : Program := mkProgram TestFactory.definition callback.

End SpreadFactory.

(** A factory whose blueprint throws an object without a string form:
    [throw Object.create(null)], on which [String] throws a [TypeError]. *)
Module NullThrowFactory.

Definition definition : js loc := λ w,
  Throws (Unprintable (ErrorObj "Cannot convert object to primitive value")) w.

Definition program : Program := mkProgram definition TestFactory.callback.

End NullThrowFactory.

(** A factory with a state callback that throws:
    [throw new Error('bad state')]. *)
Module ThrowingState.

Definition callback (c : cbid) (attributes : loc) : js loc := λ w,
  Throws (ErrorObj "bad state") w.

Definition program : Program := mkProgram TestFactory.definition callback.

End ThrowingState.

(** A world with an empty heap and a freshly constructed builder. *)
Definition pristine : world := {| heap := ∅; this := initial |}.

(** A world holding the caller's object [{ example: 'FooBar' }] at address 1. *)
Definition with_FooBar : world :=
  {| heap := {[ 1%positive := {[ "example" := VString "FooBar" ]} ]};
     this := initial |}.

(** A builder on which [exampleState()] and [count(3)] are pending, next to
    the caller's object. *)
Definition configured : world :=
  {| heap := heap with_FooBar;
     this := {| stateCallbacks := [TestFactory.exampleState];
                instances := of_Z 3 |} |}.

(** ** Properties of user code *)

(** A computation that leaves the builder's fields as it found them. *)
Definition leaves_builder {A} (m : js A) : Prop :=
  ∀ w, this (world_after w (m w)) = this w.

(** Neither the blueprint nor any callback touches the builder. *)
Definition builder_untouched (P : Program) : Prop :=
  leaves_builder (definition P) ∧ ∀ c l, leaves_builder (callback P c l).

(** A computation that always returns: it neither throws nor diverges. *)
Definition always_returns {A} (m : js A) : Prop :=
  ∀ w, ∃ a w', m w = Returns a w'.

Definition never_throws (P : Program) : Prop :=
  always_returns (definition P) ∧ ∀ c l, always_returns (callback P c l).

(** ** The loop, seen from outside *)

(** The batch as the specification describes it: [n] models, each built by
    one run of the loop body, in the order in which they are built. *)
Fixpoint batch (P : Program) (overrides : option loc) (n : nat) : js (list loc) :=
  match n with
  | O => ret []
  | S n =>
      let! first := make_instance P overrides in
      let! rest := batch P overrides n in
      ret (first :: rest)
  end.

(** [loop_reaches P overrides n i output w j output' w']: from the loop
    state ([i], [output], [w]), [n] iterations whose condition holds and whose
    body returns lead to the loop state ([j], [output'], [w']). *)
Inductive loop_reaches (P : Program) (overrides : option loc)
    : nat → Z → list loc → world → Z → list loc → world → Prop :=
| reaches_here i output w :
    loop_reaches P overrides 0 i output w i output w
| reaches_step n i output w finalModel w1 j output' w' :
    lt (of_Z i) (instances (this w)) = true →
    make_instance P overrides w = Returns finalModel w1 →
    loop_reaches P overrides n (i + 1) (output ++ [finalModel]) w1 j output' w' →
    loop_reaches P overrides (S n) i output w j output' w'.



(** ** The public API, call by call *)

Inductive call : Type :=
| Count (amount : number)
| State (c : cbid)
| Make (overrides : option loc)
| MakeOne (overrides : option loc)
| Create (overrides : option loc)
| CreateOne (overrides : option loc).

(** The world a call leaves behind, whether it returns or throws. *)
Definition after_call (P : Program) (fuel : nat) (c : call) (w : world) : world :=
  match c with
  | Count amount => world_after w (count amount w)
  | State c => world_after w (state c w)
  | Make overrides => world_after w (make P fuel overrides w)
  | MakeOne overrides => world_after w (makeOne P fuel overrides w)
  | Create overrides => world_after w (create P overrides w)
  | CreateOne overrides => world_after w (createOne P overrides w)
  end.

(** The worlds a client reaches with a builder of a concrete subclass: it
    constructs the builder, calls its methods, and does what it likes with the
    heap in between.  [counts] collects the arguments given to [count]. *)
Inductive reachable (P : Program) : list number → world → Prop :=
| reachable_new w :
    reachable P [] (world_after w (constructor false w))
| reachable_heap counts h w :
    reachable P counts w →
    reachable P counts (set_heap h w)
| reachable_call counts fuel c w :
    reachable P counts w →
    reachable P
      (match c with Count amount => amount :: counts | _ => counts end)
      (after_call P fuel c w).

(** The pending count is at least 1. *)
Definition count_at_least_1 (w : world) : Prop :=
  ge (instances (this w)) (of_Z 1) = true.

(** ** Objects that user code leaves alone *)

(** A computation that, when the object at [ov] exists, leaves its
    properties as they are. *)
Definition keeps_object {A} (ov : loc) (m : js A) : Prop :=
  ∀ w, is_Some (heap w !! ov) →
       heap (world_after w (m w)) !! ov = heap w !! ov.

(** ** Blueprints that return fresh objects, callbacks that compute functions *)

(** The blueprint, when it returns, returns a new object, and has touched
    neither the builder nor any object that existed. *)
Definition fresh_blueprint (P : Program) : Prop :=
  ∀ w blueprint w', definition P w = Returns blueprint w' →
    this w' = this w ∧
    heap w !! blueprint = None ∧
    is_Some (heap w' !! blueprint) ∧
    ∀ l, is_Some (heap w !! l) → heap w' !! l = heap w !! l.

(** [B] is the properties of the object the blueprint returns in
    iteration [k] (counted from 0) of the loop of [make(overrides)] called in
    the world [w0]. *)
Definition blueprint_output (P : Program) (overrides : option loc) (w0 : world)
    (k : nat) (B : obj) : Prop :=
  ∃ i output wk blueprint w1,
    loop_reaches P overrides k 0 [] w0 i output wk ∧
    lt (of_Z i) (instances (this wk)) = true ∧
    definition P wk = Returns blueprint w1 ∧
    heap w1 !! blueprint = Some B.

(** The callback [c] computes the function [T] from Model to Model: given a
    model with properties [m] it returns, when it returns, a model with
    properties [T m], which is its argument updated in place or a new
    object; it has touched neither the builder nor any other object. *)
Definition computes (P : Program) (c : cbid) (T : obj → obj) : Prop :=
  ∀ w model m model' w',
    heap w !! model = Some m →
    callback P c model w = Returns model' w' →
    this w' = this w ∧
    heap w' !! model' = Some (T m) ∧
    (model' = model ∨ heap w !! model' = None) ∧
    ∀ l, l ≠ model → is_Some (heap w !! l) → heap w' !! l = heap w !! l.

(** [Tn(...(T2(T1(M)))...)] for the list [T1; T2; ...; Tn]. *)
Fixpoint apply_in_order (Ts : list (obj → obj)) (M : obj) : obj :=
  match Ts with
  | [] => M
  | T :: Ts => apply_in_order Ts (T M)
  end.

(** [state(c1).state(c2)...state(cn)] *)
Fixpoint register (cs : list cbid) : js receiver :=
  match cs with
  | [] => ret This
  | c :: cs => let! _ := state c in register cs
  end.

(** The overrides argument, when given, is an object of the heap. *)
Definition valid_overrides (overrides : option loc) (w : world) : Prop :=
  match overrides with
  | Some ov => is_Some (heap w !! ov)
  | None => True
  end.

(** The shallow merge as the specification words it: [M] has the
    override's value at every key of the override map, and the blueprint's
    value (or none) at every other key. *)
Definition shallow_merge (props B M : obj) : Prop :=
  ∀ key : string,
    (∀ v, props !! key = Some v → M !! key = Some v) ∧
    (props !! key = None → M !! key = B !! key).

(** In the heap [h], [model] is what iteration [k] of [make(overrides)]
    called in [w0] builds when the pending callbacks compute [Ts]: the
    blueprint output of that iteration, merged with the overrides, then taken
    through [Ts] in order. *)
Definition built (P : Program) (overrides : option loc) (w0 : world)
    (Ts : list (obj → obj)) (h : heap_t) (k : nat) (model : loc) : Prop :=
  ∃ B, blueprint_output P overrides w0 k B ∧
       h !! model =
         Some (apply_in_order Ts (properties overrides (heap w0) ∪ B)).

(** ** Further properties of numbers and of user code *)

(** The numbers below 1: the finite ones less than 1, and [-Infinity]. *)
Definition below_1 (amount : number) : Prop :=
  match amount with
  | Finite q => (q < 1)%Q
  | NegInfinity => True
  | NaN | PosInfinity => False
  end.

(** A computation that ends: it returns or throws. *)
Definition ends {A} (m : js A) : Prop :=
  ∀ w, m w ≠ OutOfFuel.

Definition user_code_ends (P : Program) : Prop :=
  ends (definition P) ∧ ∀ c l, ends (callback P c l).

(** A computation that throws in every world. *)
Definition always_throws {A} (m : js A) : Prop :=
  ∀ w, ∃ e w', m w = Throws e w'.

(** ** Basic facts *)

Lemma lt_of_Z (a b : Z) : lt (of_Z a) (of_Z b) = (a <? b).
Proof. unfold lt, of_Z; simpl. by rewrite !Z.mul_1_r. Qed.

Lemma ge_of_Z (a b : Z) : ge (of_Z a) (of_Z b) = (b <=? a).
Proof. unfold ge, of_Z; simpl. by rewrite !Z.mul_1_r. Qed.

Lemma bind_Returns {A B} (m : js A) (k : A → js B) w b w' :
  bind m k w = Returns b w' ↔ ∃ a w1, m w = Returns a w1 ∧ k a w1 = Returns b w'.
Proof.
  unfold bind. destruct (m w) as [a w1|e w1|]; split; try done.
  - eauto.
  - by intros (? & ? & [= <- <-] & ?).
  - by intros (? & ? & ? & ?).
  - by intros (? & ? & ? & ?).
Qed.

Lemma bind_Throws {A B} (m : js A) (k : A → js B) w e w' :
  bind m k w = Throws e w' ↔
  m w = Throws e w' ∨ ∃ a w1, m w = Returns a w1 ∧ k a w1 = Throws e w'.
Proof.
  unfold bind. destruct (m w) as [a w1|e1 w1|]; split; intros H.
  - right. eauto.
  - destruct H as [H|(a' & w2 & H1 & H2)]; [done|]. by injection H1 as -> ->.
  - left. by injection H as -> ->.
  - destruct H as [H|(a' & w2 & H1 & H2)]; [|done]. by injection H as -> ->.
  - done.
  - by destruct H as [H|(a' & w2 & H1 & H2)].
Qed.

(** [make] returns exactly when its [try] block does. *)
Lemma make_Returns P fuel overrides w output w' :
  make P fuel overrides w = Returns output w' ↔
  make_try P fuel overrides w = Returns output w'.
Proof.
  unfold make. destruct (make_try _ _ _ _) as [a w1|error w1|]; [done| |done].
  by destruct (message_of error).
Qed.

(** [make] throws exactly when its [try] block does: the wrapped message,
    or what building the message throws. *)
Lemma make_Throws P fuel overrides w e w' :
  make P fuel overrides w = Throws e w' ↔
  ∃ error, make_try P fuel overrides w = Throws error w' ∧
           match message_of error with
           | Text message => e = ErrorObj ("Failed to make model: " ++ message)
           | Raises raised => e = raised
           end.
Proof.
  unfold make. destruct (make_try _ _ _ _) as [a w1|error w1|]; split.
  - done.
  - by intros (error' & H & _).
  - intros H. exists error.
    destruct (message_of error); injection H as <- <-; by split.
  - intros (error' & H & He). injection H as <- <-.
    destruct (message_of error); by subst.
  - done.
  - by intros (error' & H & _).
Qed.

(** Whatever [make] throws, it throws where its [try] block threw. *)
Lemma make_Throws_where P fuel overrides w e w' :
  make P fuel overrides w = Throws e w' →
  ∃ error, make_try P fuel overrides w = Throws error w'.
Proof. intros (error & Htry & _)%make_Throws. eauto. Qed.

(** When the [try] block throws, [make] throws, in the same world. *)
Lemma make_try_Throws_make P fuel overrides w error w' :
  make_try P fuel overrides w = Throws error w' →
  ∃ e, make P fuel overrides w = Throws e w'.
Proof. unfold make. intros ->. destruct (message_of error); eauto. Qed.

(** The [try] block returns after the reset; it throws where the loop throws. *)
Lemma make_try_Returns P fuel overrides w output w' :
  make_try P fuel overrides w = Returns output w' ↔
  ∃ w1, make_loop P fuel 0 overrides [] w = Returns output w1 ∧
        w' = set_this initial w1.
Proof.
  unfold make_try. rewrite bind_Returns. split.
  - intros (a & w1 & Hloop & [= <- <-]). eauto.
  - intros (w1 & Hloop & ->). eauto.
Qed.

Lemma make_try_Throws P fuel overrides w e w' :
  make_try P fuel overrides w = Throws e w' ↔
  make_loop P fuel 0 overrides [] w = Throws e w'.
Proof.
  unfold make_try. rewrite bind_Throws. split; [|auto].
  by intros [?|(? & ? & ? & ?)].
Qed.

Lemma makeOne_eq P fuel overrides w :
  makeOne P fuel overrides w =
  match make P fuel overrides w with
  | Returns output w' => Returns (output !! 0%nat) w'
  | Throws e w' => Throws e w'
  | OutOfFuel => OutOfFuel
  end.
Proof. reflexivity. Qed.

(** ** User code that leaves the builder alone, or always returns *)

Lemma leaves_builder_ret {A} (a : A) : leaves_builder (ret a).
Proof. by intros w. Qed.

Lemma leaves_builder_bind {A B} (m : js A) (k : A → js B) :
  leaves_builder m → (∀ a, leaves_builder (k a)) → leaves_builder (bind m k).
Proof.
  intros Hm Hk w. unfold bind. specialize (Hm w).
  destruct (m w) as [a w1|e w1|]; simpl in *; try done.
  specialize (Hk a w1). destruct (k a w1); simpl in *; congruence.
Qed.

Lemma leaves_builder_Object_assign target overrides :
  leaves_builder (Object_assign target overrides).
Proof. by intros w. Qed.

Lemma leaves_builder_reduce P callbacks :
  (∀ c l, leaves_builder (callback P c l)) →
  ∀ acc, leaves_builder (reduce P callbacks acc).
Proof.
  intros HP. induction callbacks as [|c rest IH]; intros acc; simpl.
  - apply leaves_builder_ret.
  - apply leaves_builder_bind; auto.
Qed.

Lemma leaves_builder_make_instance P overrides :
  builder_untouched P → leaves_builder (make_instance P overrides).
Proof.
  intros [Hdef Hcb]. unfold make_instance.
  apply leaves_builder_bind; [done|]. intros blueprint.
  apply leaves_builder_bind; [apply leaves_builder_Object_assign|]. intros model.
  apply leaves_builder_bind; [|intros; apply leaves_builder_ret].
  intros w. by apply leaves_builder_reduce.
Qed.

Lemma leaves_builder_make_loop P fuel overrides :
  builder_untouched P →
  ∀ i output, leaves_builder (make_loop P fuel i overrides output).
Proof.
  intros HP. induction fuel as [|fuel IH]; intros i output w; simpl; [done|].
  destruct (lt _ _); [|done].
  apply (leaves_builder_bind (make_instance P overrides)); [|by auto].
  by apply leaves_builder_make_instance.
Qed.

Lemma always_returns_ret {A} (a : A) : always_returns (ret a).
Proof. intros w. by exists a, w. Qed.

Lemma always_returns_bind {A B} (m : js A) (k : A → js B) :
  always_returns m → (∀ a, always_returns (k a)) → always_returns (bind m k).
Proof.
  intros Hm Hk w. destruct (Hm w) as (a & w1 & Ha).
  destruct (Hk a w1) as (b & w2 & Hb). exists b, w2.
  unfold bind. by rewrite Ha.
Qed.

Lemma always_returns_reduce P callbacks :
  (∀ c l, always_returns (callback P c l)) →
  ∀ acc, always_returns (reduce P callbacks acc).
Proof.
  intros HP. induction callbacks as [|c rest IH]; intros acc; simpl.
  - apply always_returns_ret.
  - apply always_returns_bind; auto.
Qed.

Lemma always_returns_make_instance P overrides :
  never_throws P → always_returns (make_instance P overrides).
Proof.
  intros [Hdef Hcb]. unfold make_instance.
  apply always_returns_bind; [done|]. intros blueprint.
  apply always_returns_bind; [intros w; by eexists _, _|]. intros model.
  apply always_returns_bind; [|intros; apply always_returns_ret].
  intros w. by apply always_returns_reduce.
Qed.

(** With well-behaved user code and an integer count, the loop runs once per
    remaining index and appends one model each time, in the order built; it
    needs one unit of fuel more than it has iterations. *)
Lemma make_loop_runs P overrides :
  builder_untouched P → never_throws P →
  ∀ (k : nat) fuel i output w,
    instances (this w) = of_Z (i + Z.of_nat k) →
    (k < fuel)%nat →
    ∃ models w',
      make_loop P fuel i overrides output w = Returns (output ++ models) w' ∧
      batch P overrides k w = Returns models w' ∧
      length models = k ∧ this w' = this w.
Proof.
  intros Hleave Hret. induction k as [|k IH]; intros fuel i output w Hn Hfuel;
    (destruct fuel as [|fuel]; [lia|]); simpl; rewrite Hn, lt_of_Z.
  - rewrite (proj2 (Z.ltb_ge _ _)) by lia.
    exists [], w. by rewrite app_nil_r.
  - rewrite (proj2 (Z.ltb_lt _ _)) by lia.
    destruct (always_returns_make_instance P overrides Hret w) as (l & w1 & Hl).
    pose proof (leaves_builder_make_instance P overrides Hleave w) as Hthis.
    rewrite Hl in Hthis; simpl in Hthis.
    destruct (IH fuel (i + 1) (output ++ [l]) w1)
      as (models & w' & Hloop & Hbatch & Hlen & Hw');
      [rewrite Hthis, Hn; f_equal; lia | lia |].
    exists (l :: models), w'. unfold bind. rewrite Hl, Hloop, Hbatch.
    rewrite <- app_assoc. simpl. split_and!; [done | done | by rewrite Hlen | congruence].
Qed.

(** The example programs are well behaved. *)
Lemma TestFactory_builder_untouched : builder_untouched TestFactory.program.
Proof. split; [by intros w | by intros [|c] l w]. Qed.

Lemma TestFactory_never_throws : never_throws TestFactory.program.
Proof. split; [|intros [|c] l]; intros w; by eexists _, _. Qed.


(** ** Fuel *)

(** A run of the loop that ends, ends the same way with more fuel. *)
Lemma make_loop_more_fuel P overrides fuel fuel' i output w :
  (fuel ≤ fuel')%nat →
  make_loop P fuel i overrides output w ≠ OutOfFuel →
  make_loop P fuel' i overrides output w = make_loop P fuel i overrides output w.
Proof.
  revert fuel' i output w. induction fuel as [|fuel IH];
    intros fuel' i output w Hle; simpl; [done|].
  destruct fuel' as [|fuel']; [lia|]. simpl.
  destruct (lt _ _); [|done]. unfold bind.
  destruct (make_instance P overrides w) as [finalModel w1| |]; [|done..].
  apply IH. lia.
Qed.

Lemma make_more_fuel P overrides fuel fuel' w :
  (fuel ≤ fuel')%nat →
  make P fuel overrides w ≠ OutOfFuel →
  make P fuel' overrides w = make P fuel overrides w.
Proof.
  intros Hle Hends. unfold make, make_try, bind in *.
  rewrite (make_loop_more_fuel P overrides fuel fuel'); [done..|].
  destruct (make_loop P fuel 0 overrides [] w) as [| e w1 |]; [done | | done].
  by destruct (message_of e).
Qed.

(** With a pending count of [Infinity] and user code that returns and
    leaves the builder alone, the loop never ends. *)
Lemma make_loop_Infinity P overrides :
  builder_untouched P → never_throws P →
  ∀ fuel i output w,
    instances (this w) = PosInfinity →
    make_loop P fuel i overrides output w = OutOfFuel.
Proof.
  intros Hleave Hret. induction fuel as [|fuel IH]; intros i output w Hinf;
    simpl; [done|].
  rewrite Hinf. unfold lt at 1, of_Z at 1.
  destruct (always_returns_make_instance P overrides Hret w) as (l & w1 & Hl).
  pose proof (leaves_builder_make_instance P overrides Hleave w) as Hthis.
  rewrite Hl in Hthis; simpl in Hthis.
  unfold bind. rewrite Hl. apply IH. congruence.
Qed.

(** On integers, the guard of [count] is the integer comparison. *)
Lemma count_of_Z (amount : Z) (w : world) :
  count (of_Z amount) w =
  if amount <? 1
  then Throws (ErrorObj "Count must be greater than 0") w
  else Returns This
         (set_this {| stateCallbacks := stateCallbacks (this w);
                      instances := of_Z amount |} w).
Proof. unfold count. by rewrite lt_of_Z. Qed.

(** * The claims *)

(** ** count *)

(** C6: for an integer [amount] below 1, [count(amount)] throws
    ['Count must be greater than 0'] and the world, with the builder's pending
    count and callbacks, is the one before the call; for an integer [amount]
    of at least 1, it stores [amount] in [instances], keeps the callbacks and
    returns the receiver. *)
Theorem count_validates (amount : Z) (w : world) :
  (amount < 1 →
   count (of_Z amount) w = Throws (ErrorObj "Count must be greater than 0") w) ∧
  (1 ≤ amount →
   count (of_Z amount) w =
   Returns This
     (set_this {| stateCallbacks := stateCallbacks (this w);
                  instances := of_Z amount |} w)).
Proof.
  rewrite count_of_Z. split; intros H.
  - by rewrite (proj2 (Z.ltb_lt _ _)).
  - by rewrite (proj2 (Z.ltb_ge _ _)).
Qed.

Lemma count_validates_witness :
  (0 < 1 ∧ -1 < 1 ∧ 1 ≤ 3) ∧
  count (of_Z 0) configured =
    Throws (ErrorObj "Count must be greater than 0") configured ∧
  count (of_Z (-1)) configured =
    Throws (ErrorObj "Count must be greater than 0") configured ∧
  instances (this (world_after pristine (count (of_Z 3) pristine))) = of_Z 3.
Proof.
  split; [lia|]. split_and!.
  - apply (count_validates 0 configured). lia.
  - apply (count_validates (-1) configured). lia.
  - rewrite (proj2 (count_validates 3 pristine)); [reflexivity | lia].
Defined.

(** ** create, createOne *)

(** C8: [create] and [createOne] throw
    ['Must implement the DB layer to use Create.'] whatever the subclass,
    the argument and the builder's state; the world they throw in is the
    world they were called in, so nothing was reset and no effect of the
    blueprint took place. *)
Theorem create_not_implemented (P : Program) (overrides : option loc) (w : world) :
  create P overrides w =
    Throws (ErrorObj "Must implement the DB layer to use Create.") w ∧
  createOne P overrides w =
    Throws (ErrorObj "Must implement the DB layer to use Create.") w.
Proof. split; reflexivity. Qed.

(** ** makeOne *)

(** C5: [makeOne] is [make] followed by the read of index 0.  It returns
    the first element of what [make] returns from the same world (or
    [undefined] for an empty array), in the world [make] ends in, and throws
    what [make] throws.  With well-behaved user code and a pending count of
    [N > 1], [make] builds [N] models and [makeOne] returns the first of them,
    the heap holding all [N]. *)
Theorem makeOne_first_of_make (P : Program) (fuel : nat) (overrides : option loc)
    (w : world) :
  (∀ output w', make P fuel overrides w = Returns output w' →
     makeOne P fuel overrides w = Returns (output !! 0%nat) w') ∧
  (∀ e w', make P fuel overrides w = Throws e w' →
     makeOne P fuel overrides w = Throws e w') ∧
  (∀ N : Z, 1 < N → instances (this w) = of_Z N →
     builder_untouched P → never_throws P → (Z.to_nat N < fuel)%nat →
     ∃ first rest w',
       make P fuel overrides w = Returns (first :: rest) w' ∧
       Z.of_nat (length rest) = N - 1 ∧
       makeOne P fuel overrides w = Returns (Some first) w').
Proof.
  split_and!.
  - intros output w' H. by rewrite makeOne_eq, H.
  - intros e w' H. by rewrite makeOne_eq, H.
  - intros N HN Hinst Hleave Hret Hfuel.
    destruct (make_loop_runs P overrides Hleave Hret (Z.to_nat N) fuel 0 [] w)
      as (models & w1 & Hloop & _ & Hlen & _); [rewrite Hinst; f_equal; lia | done |].
    destruct models as [|first rest]; simpl in Hlen; [lia|].
    exists first, rest, (set_this initial w1).
    assert (make P fuel overrides w = Returns (first :: rest) (set_this initial w1))
      as Hmake by (apply make_Returns, make_try_Returns; eauto).
    split_and!; [done | lia | by rewrite makeOne_eq, Hmake].
Qed.

Lemma makeOne_first_of_make_witness :
  ∃ first rest w',
    1 < 3 ∧ instances (this configured) = of_Z 3 ∧
    make TestFactory.program 5 None configured = Returns (first :: rest) w' ∧
    Z.of_nat (length rest) = 3 - 1 ∧
    makeOne TestFactory.program 5 None configured = Returns (Some first) w'.
Proof.
  destruct (proj2 (proj2 (makeOne_first_of_make TestFactory.program 5 None configured))
              3 ltac:(lia) eq_refl TestFactory_builder_untouched
              TestFactory_never_throws ltac:(vm_compute; lia))
    as (first & rest & w' & Hmake & Hlen & Hone).
  exists first, rest, w'. split_and!; [lia | reflexivity | done..].
Defined.

(** ** make: errors *)










(** ** make: the reset *)




(** ** make: the size of the batch *)

(** C4: with user code that neither throws nor touches the builder, and
    an integer [N >= 1], [count(N).make()] returns [N] models, the models of
    [N] successive runs of the loop body in the order built, and so does
    [make] alone when the pending count is [N] at the start of the call. *)
Theorem count_make_length (P : Program) (fuel : nat) (overrides : option loc)
    (N : Z) (w : world) :
  1 ≤ N → builder_untouched P → never_throws P → (Z.to_nat N < fuel)%nat →
  (∃ output w',
     (let! _ := count (of_Z N) in make P fuel overrides) w = Returns output w' ∧
     Z.of_nat (length output) = N) ∧
  (instances (this w) = of_Z N →
   ∃ output w1,
     make P fuel overrides w = Returns output (set_this initial w1) ∧
     batch P overrides (Z.to_nat N) w = Returns output w1 ∧
     Z.of_nat (length output) = N).
Proof.
  intros HN Hleave Hret Hfuel.
  assert (∀ w0, instances (this w0) = of_Z N →
          ∃ output w1,
            make P fuel overrides w0 = Returns output (set_this initial w1) ∧
            batch P overrides (Z.to_nat N) w0 = Returns output w1 ∧
            Z.of_nat (length output) = N) as Hmake.
  { intros w0 Hinst.
    destruct (make_loop_runs P overrides Hleave Hret (Z.to_nat N) fuel 0 [] w0)
      as (models & w1 & Hloop & Hbatch & Hlen & _);
      [rewrite Hinst; f_equal; lia | done |].
    exists models, w1. split_and!; [|done|lia].
    apply make_Returns, make_try_Returns. eauto. }
  split; [|by apply Hmake].
  destruct (Hmake (set_this {| stateCallbacks := stateCallbacks (this w);
                               instances := of_Z N |} w) eq_refl)
    as (output & w1 & Hm & _ & Hlen).
  exists output, (set_this initial w1). split; [|done].
  unfold bind. rewrite count_of_Z. by rewrite (proj2 (Z.ltb_ge _ _)).
Qed.

Lemma count_make_length_witness :
  (1 ≤ 3 ∧ (Z.to_nat 3 < 5)%nat) ∧
  ∃ output w',
    (let! _ := count (of_Z 3) in make TestFactory.program 5 None) pristine
      = Returns output w' ∧
    Z.of_nat (length output) = 3.
Proof.
  split; [split; [lia | vm_compute; lia]|].
  exact (proj1 (count_make_length TestFactory.program 5 None 3 pristine
                  ltac:(lia) TestFactory_builder_untouched
                  TestFactory_never_throws ltac:(vm_compute; lia))).
Defined.

(** ** The pending count *)

(** What the loop returns extends what it was given. *)
Lemma make_loop_extends P fuel overrides i output w output' w' :
  make_loop P fuel i overrides output w = Returns output' w' →
  ∃ more, output' = output ++ more.
Proof.
  revert i output w. induction fuel as [|fuel IH]; intros i output w; simpl; [done|].
  destruct (lt _ _).
  - intros (finalModel & w1 & _ & (more & ->)%IH)%bind_Returns.
    exists (finalModel :: more). by rewrite <- app_assoc.
  - intros [= <- <-]. exists []. by rewrite app_nil_r.
Qed.

Lemma ge_1_lt_0 (n : number) : ge n (of_Z 1) = true → lt (of_Z 0) n = true.
Proof.
  destruct n as [[num den]| | |]; try done. unfold ge, lt, of_Z; simpl.
  rewrite Z.leb_le, Z.ltb_lt. lia.
Qed.

(** [count] lets through exactly the numbers that are not below 1; of
    these, all but NaN are at least 1. *)
Lemma not_lt_ge (n : number) :
  n ≠ NaN → lt n (of_Z 1) = false → ge n (of_Z 1) = true.
Proof.
  destruct n as [[num den]| | |]; try done. unfold ge, lt, of_Z; simpl.
  rewrite Z.ltb_ge, Z.leb_le. lia.
Qed.

(** With a pending count of at least 1, a [make] that returns returns at
    least one model. *)
Lemma make_nonempty P fuel overrides w output w' :
  count_at_least_1 w →
  make P fuel overrides w = Returns output w' → output ≠ [].
Proof.
  intros Hge%ge_1_lt_0 (w1 & Hloop & _)%make_Returns%make_try_Returns.
  destruct fuel as [|fuel]; [done|]. simpl in Hloop. rewrite Hge in Hloop.
  apply bind_Returns in Hloop as (finalModel & w2 & _ & (more & ->)%make_loop_extends).
  by destruct more.
Qed.

(** What C9 claims holds as long as [count] is never given NaN: in every
    world a client reaches, the pending count is at least 1, a [make] that
    returns returns a non-empty array, and a [makeOne] that returns returns a
    model. *)
Lemma count_at_least_1_without_NaN P counts w :
  builder_untouched P →
  reachable P counts w →
  NaN ∉ counts →
  count_at_least_1 w ∧
  (∀ fuel overrides output w',
     make P fuel overrides w = Returns output w' → output ≠ []) ∧
  (∀ fuel overrides first w',
     makeOne P fuel overrides w = Returns first w' → is_Some first).
Proof.
  intros HP Hreach HNaN.
  assert (count_at_least_1 w) as Hinv.
  { induction Hreach as [w|counts h w _ IH|counts fuel c w _ IH]; [done|by apply IH|].
    destruct c as [amount|c|overrides|overrides|overrides|overrides]; simpl;
      try (by apply IH).
    - apply not_elem_of_cons in HNaN as [Hne Hcounts]. specialize (IH Hcounts).
      unfold count. destruct (lt amount (of_Z 1)) eqn:E; [done|].
      by apply not_lt_ge.
    - specialize (IH HNaN).
      destruct (make P fuel overrides w) as [output w'|e w'|] eqn:E; simpl; [|..|done].
      + by apply make_Returns, make_try_Returns in E as (w1 & _ & ->).
      + apply make_Throws_where in E as (error & Htry%make_try_Throws).
        pose proof (leaves_builder_make_loop P fuel overrides HP 0 [] w) as H.
        rewrite Htry in H; simpl in H. unfold count_at_least_1. by rewrite H.
    - specialize (IH HNaN). rewrite makeOne_eq.
      destruct (make P fuel overrides w) as [output w'|e w'|] eqn:E; simpl; [|..|done].
      + by apply make_Returns, make_try_Returns in E as (w1 & _ & ->).
      + apply make_Throws_where in E as (error & Htry%make_try_Throws).
        pose proof (leaves_builder_make_loop P fuel overrides HP 0 [] w) as H.
        rewrite Htry in H; simpl in H. unfold count_at_least_1. by rewrite H. }
  split_and!; [done|by eauto using make_nonempty|].
  intros fuel overrides first w'. rewrite makeOne_eq.
  destruct (make P fuel overrides w) as [output w1| |] eqn:E; [|done..].
  intros [= <- _]. apply make_nonempty in E; [|done]. by destruct output.
Qed.

(** C9 fails on the code at [count(NaN)]: [NaN < 1] is false, so the guard
    lets NaN through and it becomes the pending count, which is not at least
    1; the loop of the next [make] does not run, [make] returns an empty array
    and [makeOne] returns [undefined]. *)
Theorem count_accepts_NaN (P : Program) (fuel : nat) (overrides : option loc)
    (w : world) :
  let w1 := set_this {| stateCallbacks := stateCallbacks (this w);
                        instances := NaN |} w in
  count NaN w = Returns This w1 ∧
  ¬ count_at_least_1 w1 ∧
  make P (S fuel) overrides w1 = Returns [] (set_this initial w1) ∧
  makeOne P (S fuel) overrides w1 = Returns None (set_this initial w1).
Proof. by split_and!. Qed.

(** ** make: the overrides object *)

Lemma keeps_object_ret {A} ov (a : A) : keeps_object ov (ret a).
Proof. by intros w. Qed.

Lemma keeps_object_bind {A B} ov (m : js A) (k : A → js B) :
  keeps_object ov m → (∀ a, keeps_object ov (k a)) → keeps_object ov (bind m k).
Proof.
  intros Hm Hk w Hov. unfold bind. specialize (Hm w Hov).
  destruct (m w) as [a w1|e w1|]; simpl in *; try done.
  assert (is_Some (heap w1 !! ov)) as Hov1 by (by rewrite Hm).
  specialize (Hk a w1 Hov1). destruct (k a w1); simpl in *; congruence.
Qed.

(** [Object.assign] writes into its target only; when the target is the
    source it writes back what is there. *)
Lemma keeps_object_Object_assign ov target :
  keeps_object ov (Object_assign target (Some ov)).
Proof.
  intros w [o Ho]. simpl. destruct (decide (target = ov)) as [->|Hne].
  - rewrite lookup_insert_eq, lookup_total_alt, Ho. simpl.
    by rewrite (idemp_L (∪)).
  - by rewrite lookup_insert_ne.
Qed.

Lemma keeps_object_reduce P ov callbacks :
  (∀ c l, keeps_object ov (callback P c l)) →
  ∀ acc, keeps_object ov (reduce P callbacks acc).
Proof.
  intros HP. induction callbacks as [|c rest IH]; intros acc; simpl.
  - apply keeps_object_ret.
  - apply keeps_object_bind; auto.
Qed.

Lemma keeps_object_make_instance P ov :
  keeps_object ov (definition P) → (∀ c l, keeps_object ov (callback P c l)) →
  keeps_object ov (make_instance P (Some ov)).
Proof.
  intros Hdef Hcb. unfold make_instance.
  apply keeps_object_bind; [done|]. intros blueprint.
  apply keeps_object_bind; [apply keeps_object_Object_assign|]. intros model.
  apply keeps_object_bind; [|intros; apply keeps_object_ret].
  intros w. by apply keeps_object_reduce.
Qed.

Lemma keeps_object_make_loop P ov fuel :
  keeps_object ov (definition P) → (∀ c l, keeps_object ov (callback P c l)) →
  ∀ i output, keeps_object ov (make_loop P fuel i (Some ov) output).
Proof.
  intros Hdef Hcb. induction fuel as [|fuel IH]; intros i output w Hov; simpl; [done|].
  destruct (lt _ _); [|done].
  apply (keeps_object_bind ov (make_instance P (Some ov))); [|by auto|done].
  by apply keeps_object_make_instance.
Qed.

Lemma keeps_object_make P ov fuel :
  keeps_object ov (definition P) → (∀ c l, keeps_object ov (callback P c l)) →
  keeps_object ov (make P fuel (Some ov)).
Proof.
  intros Hdef Hcb w Hov.
  pose proof (keeps_object_make_loop P ov fuel Hdef Hcb 0 [] w Hov) as H.
  unfold make, make_try, bind.
  destruct (make_loop P fuel 0 (Some ov) [] w) as [|e w1|]; [done| |done].
  by destruct (message_of e).
Qed.

(** C10: [make(overrides)] and [makeOne(overrides)] leave the properties
    of the caller's overrides object as they were, whether they return or
    throw, provided the blueprint and the callbacks leave that object alone,
    as a blueprint that returns a fresh object and pure callbacks do.  The one
    write of [make] is [Object.assign] into the blueprint's output. *)
Theorem make_keeps_overrides (P : Program) (fuel : nat) (ov : loc) (w : world) :
  is_Some (heap w !! ov) →
  keeps_object ov (definition P) →
  (∀ c l, keeps_object ov (callback P c l)) →
  heap (world_after w (make P fuel (Some ov) w)) !! ov = heap w !! ov ∧
  heap (world_after w (makeOne P fuel (Some ov) w)) !! ov = heap w !! ov.
Proof.
  intros Hov Hdef Hcb.
  pose proof (keeps_object_make P ov fuel Hdef Hcb w Hov) as H.
  split; [done|]. rewrite makeOne_eq.
  by destruct (make P fuel (Some ov) w).
Qed.

Lemma keeps_object_alloc ov (properties : obj) : keeps_object ov (alloc properties).
Proof.
  intros w Hov. simpl. apply lookup_insert_ne. intros Heq.
  apply elem_of_dom in Hov. rewrite <- Heq in Hov. by apply is_fresh in Hov.
Qed.

Lemma SpreadFactory_keeps_object ov :
  keeps_object ov (definition SpreadFactory.program) ∧
  ∀ c l, keeps_object ov (callback SpreadFactory.program c l).
Proof.
  split; [apply keeps_object_alloc|].
  intros c l w Hov. by apply (keeps_object_alloc ov _ w).
Qed.

Lemma make_keeps_overrides_witness :
  is_Some (heap configured !! 1%positive) ∧
  heap (world_after configured (make SpreadFactory.program 5 (Some 1%positive) configured))
    !! 1%positive = Some {[ "example" := VString "FooBar" ]}.
Proof.
  assert (is_Some (heap configured !! 1%positive)) as Hov by (by eexists).
  split; [done|].
  refine (eq_trans
            (proj1 (make_keeps_overrides SpreadFactory.program 5 1%positive configured
                      Hov (proj1 (SpreadFactory_keeps_object 1%positive))
                      (proj2 (SpreadFactory_keeps_object 1%positive)))) _).
  reflexivity.
Defined.

(** ** make: what a model is made of *)

Lemma shallow_merge_union (props B : obj) : shallow_merge props B (props ∪ B).
Proof.
  intros key. split.
  - intros v H. by apply lookup_union_Some_l.
  - intros H. by apply lookup_union_r.
Qed.

Lemma properties_preserved overrides (h h' : heap_t) :
  (∀ l, is_Some (h !! l) → h' !! l = h !! l) →
  match overrides with Some o => is_Some (h !! o) | None => True end →
  properties overrides h' = properties overrides h.
Proof.
  destruct overrides as [o|]; simpl; [|done]. intros Hp Hv.
  by rewrite !lookup_total_alt, Hp.
Qed.

(** The callbacks, run in turn on a model that is not in the heap [h0],
    apply their functions in registration order and leave [h0] alone. *)
Lemma reduce_computes P (h0 : heap_t) cs Ts :
  Forall2 (computes P) cs Ts →
  ∀ acc w m model w',
    heap w !! acc = Some m →
    h0 !! acc = None →
    (∀ l, is_Some (h0 !! l) → heap w !! l = h0 !! l) →
    reduce P cs acc w = Returns model w' →
    this w' = this w ∧
    h0 !! model = None ∧
    (∀ l, is_Some (h0 !! l) → heap w' !! l = h0 !! l) ∧
    heap w' !! model = Some (apply_in_order Ts m).
Proof.
  induction 1 as [|c T cs Ts HcT _ IH]; intros acc w m model w' Hacc Hnew Hold; simpl.
  - by intros [= <- <-].
  - intros (acc1 & w1 & Hc & Hrest)%bind_Returns.
    destruct (HcT w acc m acc1 w1 Hacc Hc) as (Hthis & Hacc1 & Hwhere & Hframe).
    assert (h0 !! acc1 = None) as Hnew1.
    { destruct Hwhere as [->|Hnone]; [done|].
      destruct (h0 !! acc1) eqn:E; [|done].
      rewrite <- (Hold acc1), Hnone in E; [done | by rewrite E]. }
    assert (∀ l, is_Some (h0 !! l) → heap w1 !! l = h0 !! l) as Hold1.
    { intros l Hl. rewrite Hframe; [by apply Hold | | by rewrite Hold].
      intros ->. rewrite Hnew in Hl. by destruct Hl. }
    destruct (IH acc1 w1 (T m) model w' Hacc1 Hnew1 Hold1 Hrest)
      as (Hthis' & ? & ? & ?).
    split_and!; [congruence | done..].
Qed.

(** One run of the loop body. *)
Lemma make_instance_computes P overrides Ts w model w' :
  fresh_blueprint P →
  Forall2 (computes P) (stateCallbacks (this w)) Ts →
  valid_overrides overrides w →
  make_instance P overrides w = Returns model w' →
  this w' = this w ∧
  heap w !! model = None ∧
  (∀ l, is_Some (heap w !! l) → heap w' !! l = heap w !! l) ∧
  ∃ blueprint w1 B,
    definition P w = Returns blueprint w1 ∧ heap w1 !! blueprint = Some B ∧
    heap w' !! model =
      Some (apply_in_order Ts (properties overrides (heap w) ∪ B)).
Proof.
  intros Hfresh Hcs Hvalid. unfold make_instance.
  intros (blueprint & w1 & Hdef & H)%bind_Returns.
  apply bind_Returns in H as (model0 & w2 & [= <- <-] & H).
  apply bind_Returns in H as (finalModel & w3 & Hred & [= <- <-]).
  destruct (Hfresh w blueprint w1 Hdef) as (Hthis1 & Hnew & [B HB] & Hold).
  simpl in Hred. rewrite Hthis1 in Hred.
  rewrite (properties_preserved overrides (heap w) (heap w1)) in Hred
    by (done || by destruct overrides).
  rewrite (lookup_total_alt (heap w1)), HB in Hred. simpl in Hred.
  eapply (reduce_computes P (heap w)) in Hred as (Hthis3 & Hnew3 & Hold3 & Hmodel);
    [| done | simpl; apply lookup_insert_eq | done |].
  - split_and!; [simpl in Hthis3; congruence | done | done |].
    by exists blueprint, w1, B.
  - intros l Hl. simpl. rewrite lookup_insert_ne; [by apply Hold|].
    intros ->. rewrite Hnew in Hl. by destruct Hl.
Qed.

(** One more iteration at the end of a run of iterations. *)
Lemma loop_reaches_snoc P overrides n a oa wa i output w finalModel w1 :
  loop_reaches P overrides n a oa wa i output w →
  lt (of_Z i) (instances (this w)) = true →
  make_instance P overrides w = Returns finalModel w1 →
  loop_reaches P overrides (S n) a oa wa (i + 1) (output ++ [finalModel]) w1.
Proof.
  induction 1 as [i output w|n a oa wa l wb j output' w' Hlt Hbody _ IH];
    intros Hlt' Hbody'.
  - eapply reaches_step; [done..|]. constructor.
  - eapply reaches_step; [done..|]. by apply IH.
Qed.

(** The loop: the model at index [k] of what it returns is the one
    iteration [k] built, and is still what it was when the loop ends. *)
Lemma make_loop_computes P overrides w0 Ts :
  fresh_blueprint P →
  Forall2 (computes P) (stateCallbacks (this w0)) Ts →
  valid_overrides overrides w0 →
  ∀ fuel n i output w output' w',
    loop_reaches P overrides n 0 [] w0 i output w →
    length output = n →
    this w = this w0 →
    (∀ l, is_Some (heap w0 !! l) → heap w !! l = heap w0 !! l) →
    (∀ k model, output !! k = Some model →
                built P overrides w0 Ts (heap w) k model) →
    make_loop P fuel i overrides output w = Returns output' w' →
    ∀ k model, output' !! k = Some model →
               built P overrides w0 Ts (heap w') k model.
Proof.
  intros Hfresh Hcs Hvalid. induction fuel as [|fuel IH];
    intros n i output w output' w' Hreach Hlen Hthis Hold0 Hout; simpl; [done|].
  destruct (lt (of_Z i) (instances (this w))) eqn:Hlt; [|by intros [= <- <-]].
  intros (model & w1 & Hbody & Hloop)%bind_Returns.
  assert (valid_overrides overrides w) as Hvalidw.
  { destruct overrides as [o|]; [|done]. simpl in *. by rewrite Hold0. }
  destruct (make_instance_computes P overrides Ts w model w1)
    as (Hthis1 & Hnew & Hold & blueprint & wb & B & Hdef & HB & Hmodel);
    [done | by rewrite Hthis | done..|].
  assert (properties overrides (heap w) = properties overrides (heap w0)) as Hprops
    by (apply properties_preserved; [done | by destruct overrides]).
  apply (IH (S n) (i + 1) (output ++ [model]) w1 output' w'); [| | | | |done].
  - by eapply loop_reaches_snoc.
  - rewrite length_app. simpl. lia.
  - congruence.
  - intros l Hl. rewrite Hold; [by apply Hold0 | by rewrite Hold0].
  - intros k m [Hk|[Hk Hm]]%lookup_app_Some.
    + destruct (Hout k m Hk) as (B' & HB' & Hm). exists B'. split; [done|].
      rewrite Hold; [done | by rewrite Hm].
    + rewrite Hlen in Hk, Hm.
      destruct (k - n)%nat as [|d] eqn:Hd; [|by destruct d].
      injection Hm as <-. replace k with n by lia.
      exists B. split; [|by rewrite <- Hprops].
      by exists i, output, w, blueprint, wb.
Qed.

Lemma make_computes P fuel overrides Ts w output w' :
  fresh_blueprint P →
  Forall2 (computes P) (stateCallbacks (this w)) Ts →
  valid_overrides overrides w →
  make P fuel overrides w = Returns output w' →
  ∀ k model, output !! k = Some model →
             built P overrides w Ts (heap w') k model.
Proof.
  intros Hfresh Hcs Hvalid (w1 & Hloop & ->)%make_Returns%make_try_Returns k model Hk.
  simpl.
  by eapply (make_loop_computes P overrides w Ts Hfresh Hcs Hvalid
               fuel 0%nat 0 [] w output w1); [constructor|..].
Qed.

Lemma register_Returns cs w :
  register cs w =
  Returns This (set_this {| stateCallbacks := stateCallbacks (this w) ++ cs;
                            instances := instances (this w) |} w).
Proof.
  revert w. induction cs as [|c cs IH]; intros [h [callbacks n]]; simpl.
  - unfold ret, set_this. simpl. by rewrite app_nil_r.
  - unfold bind, state. simpl. rewrite IH. unfold set_this. simpl.
    by rewrite <- app_assoc.
Qed.

Lemma makeOne_Returns_Some P fuel overrides w model w' :
  makeOne P fuel overrides w = Returns (Some model) w' →
  ∃ output, make P fuel overrides w = Returns output w' ∧
            output !! 0%nat = Some model.
Proof.
  rewrite makeOne_eq.
  destruct (make P fuel overrides w) as [output w1| |]; [|done..].
  intros [= H <-]. by exists output.
Qed.

(** The blueprint of [factory.test.ts] returns a fresh object, and its
    callback computes the function that sets [state]. *)
Lemma alloc_fresh (properties : obj) w l w' :
  alloc properties w = Returns l w' →
  this w' = this w ∧ heap w !! l = None ∧ heap w' !! l = Some properties ∧
  ∀ l0, is_Some (heap w !! l0) → heap w' !! l0 = heap w !! l0.
Proof.
  intros [= <- <-]. simpl.
  assert (heap w !! fresh (dom (heap w)) = None) as Hnew
    by apply not_elem_of_dom, is_fresh.
  split_and!; [done | done | apply lookup_insert_eq |].
  intros l0 Hl0. apply lookup_insert_ne. intros Heq.
  rewrite <- Heq, Hnew in Hl0. by destruct Hl0.
Qed.

Lemma TestFactory_fresh_blueprint : fresh_blueprint TestFactory.program.
Proof.
  intros w l w' (? & ? & ? & ?)%alloc_fresh. split_and!; [done | done | by eexists | done].
Qed.

Lemma TestFactory_exampleState_computes :
  computes TestFactory.program TestFactory.exampleState TestFactory.set_state.
Proof.
  intros w model m model' w' Hm [= <- <-]. simpl.
  rewrite lookup_total_alt, Hm. simpl.
  split_and!; [done | apply lookup_insert_eq | by left |].
  intros l Hne _. by apply lookup_insert_ne.
Qed.

(** ** make: overrides *)

(** C2: on a builder with no state callbacks, whose blueprint returns a
    fresh object, the model at each index of what [make] returns, and the
    model [makeOne] returns, is the shallow merge of the blueprint output of
    its own iteration with the overrides: it has the override's value at every
    key of the override map, and the blueprint's value at every other key. *)
Theorem make_merges_overrides (P : Program) (fuel : nat) (overrides : option loc)
    (w : world) :
  fresh_blueprint P →
  stateCallbacks (this w) = [] →
  valid_overrides overrides w →
  (∀ output w' k model,
     make P fuel overrides w = Returns output w' → output !! k = Some model →
     ∃ B M, blueprint_output P overrides w k B ∧ heap w' !! model = Some M ∧
            shallow_merge (properties overrides (heap w)) B M) ∧
  (∀ model w',
     makeOne P fuel overrides w = Returns (Some model) w' →
     ∃ B M, blueprint_output P overrides w 0 B ∧ heap w' !! model = Some M ∧
            shallow_merge (properties overrides (heap w)) B M).
Proof.
  intros Hfresh Hcs Hvalid.
  assert (∀ output w' k model,
     make P fuel overrides w = Returns output w' → output !! k = Some model →
     ∃ B M, blueprint_output P overrides w k B ∧ heap w' !! model = Some M ∧
            shallow_merge (properties overrides (heap w)) B M) as Hmake.
  { intros output w' k model Hm Hk.
    destruct (make_computes P fuel overrides [] w output w' Hfresh
                ltac:(by rewrite Hcs) Hvalid Hm k model Hk) as (B & HB & Hmodel).
    exists B, (properties overrides (heap w) ∪ B).
    split_and!; [done | done | apply shallow_merge_union]. }
  split; [done|].
  intros model w' (output & Hm & Hk)%makeOne_Returns_Some. eauto.
Qed.

Lemma make_merges_overrides_witness :
  fresh_blueprint TestFactory.program ∧
  stateCallbacks (this with_FooBar) = [] ∧
  valid_overrides (Some 1%positive) with_FooBar ∧
  ∃ model w' B M,
    makeOne TestFactory.program 5 (Some 1%positive) with_FooBar
      = Returns (Some model) w' ∧
    blueprint_output TestFactory.program (Some 1%positive) with_FooBar 0 B ∧
    heap w' !! model = Some M ∧
    shallow_merge (properties (Some 1%positive) (heap with_FooBar)) B M.
Proof.
  assert (valid_overrides (Some 1%positive) with_FooBar) as Hvalid by (by eexists).
  split_and!; [apply TestFactory_fresh_blueprint | done | done |].
  pose proof (proj2 (make_merges_overrides TestFactory.program 5 (Some 1%positive)
                       with_FooBar TestFactory_fresh_blueprint eq_refl Hvalid)
                2%positive _ eq_refl) as (B & M & HB & HM & Hmerge).
  by eexists _, _, B, M.
Defined.

(** ** make: state callbacks *)

(** C3: after [state(c1)], ..., [state(cn)], the model at each index of
    what [make] returns, and the model [makeOne] returns, is
    [Tn(...(T1(M))...)], where [M] is the blueprint output of its own
    iteration merged with the overrides and [Ti] is the function the i-th
    pending callback computes, the callbacks pending before coming first, in
    their order. *)
Theorem make_applies_states_in_order (P : Program) (fuel : nat)
    (overrides : option loc) (cs : list cbid) (Ts : list (obj → obj)) (w : world) :
  fresh_blueprint P →
  Forall2 (computes P) (stateCallbacks (this w) ++ cs) Ts →
  valid_overrides overrides w →
  ∀ w0, register cs w = Returns This w0 →
  (∀ output w' k model,
     make P fuel overrides w0 = Returns output w' → output !! k = Some model →
     ∃ B, blueprint_output P overrides w0 k B ∧
          heap w' !! model =
            Some (apply_in_order Ts (properties overrides (heap w) ∪ B))) ∧
  (∀ model w',
     makeOne P fuel overrides w0 = Returns (Some model) w' →
     ∃ B, blueprint_output P overrides w0 0 B ∧
          heap w' !! model =
            Some (apply_in_order Ts (properties overrides (heap w) ∪ B))).
Proof.
  intros Hfresh Hcs Hvalid w0. rewrite register_Returns. intros [= <-].
  set (w0 := set_this _ w).
  assert (∀ output w' k model,
     make P fuel overrides w0 = Returns output w' → output !! k = Some model →
     ∃ B, blueprint_output P overrides w0 k B ∧
          heap w' !! model =
            Some (apply_in_order Ts (properties overrides (heap w) ∪ B))) as Hmake.
  { intros output w' k model Hm Hk.
    exact (make_computes P fuel overrides Ts w0 output w' Hfresh Hcs
             ltac:(by destruct overrides) Hm k model Hk). }
  split; [done|].
  intros model w' (output & Hm & Hk)%makeOne_Returns_Some. eauto.
Qed.

Lemma make_applies_states_in_order_witness :
  fresh_blueprint TestFactory.program ∧
  Forall2 (computes TestFactory.program)
    (stateCallbacks (this with_FooBar) ++ [TestFactory.exampleState])
    [TestFactory.set_state] ∧
  valid_overrides (Some 1%positive) with_FooBar ∧
  ∃ w0 model w' B,
    register [TestFactory.exampleState] with_FooBar = Returns This w0 ∧
    makeOne TestFactory.program 5 (Some 1%positive) w0 = Returns (Some model) w' ∧
    blueprint_output TestFactory.program (Some 1%positive) w0 0 B ∧
    heap w' !! model =
      Some (apply_in_order [TestFactory.set_state]
              (properties (Some 1%positive) (heap with_FooBar) ∪ B)).
Proof.
  assert (valid_overrides (Some 1%positive) with_FooBar) as Hvalid by (by eexists).
  assert (Forall2 (computes TestFactory.program)
            (stateCallbacks (this with_FooBar) ++ [TestFactory.exampleState])
            [TestFactory.set_state])
    as Hcs by (constructor; [apply TestFactory_exampleState_computes | constructor]).
  split_and!; [apply TestFactory_fresh_blueprint | done | done |].
  pose proof (proj2 (make_applies_states_in_order TestFactory.program 5
                       (Some 1%positive) [TestFactory.exampleState]
                       [TestFactory.set_state] with_FooBar
                       TestFactory_fresh_blueprint Hcs Hvalid _ eq_refl)
                2%positive _ eq_refl) as (B & HB & HM).
  by eexists _, _, _, B.
Defined.

(** The scenarios of [factory.test.ts], run on the model. *)
Example a_factory_can_make_a_model :
  ∃ model w',
    makeOne TestFactory.program 5 None pristine = Returns (Some model) w' ∧
    heap w' !! model = Some {[ "example" := VString "I AM AN EXAMPLE" ]}.
Proof. by eexists _, _. Qed.

Example a_factory_can_be_given_overrides :
  ∃ model w',
    makeOne TestFactory.program 5 (Some 1%positive) with_FooBar
      = Returns (Some model) w' ∧
    heap w' !! model = Some {[ "example" := VString "FooBar" ]}.
Proof. by eexists _, _. Qed.

Example a_factory_can_make_several_models :
  ∃ models w',
    (let! _ := count (of_Z 3) in make TestFactory.program 5 None) pristine
      = Returns models w' ∧
    length models = 3%nat.
Proof. by eexists _, _. Qed.

Example throws_error_for_invalid_count :
  (let! _ := count (of_Z 0) in make TestFactory.program 5 None) pristine
  = Throws (ErrorObj "Count must be greater than 0") pristine.
Proof. reflexivity. Qed.

Example states_are_cleared_after_make :
  ∃ model1 w1 model2 w2,
    (let! _ := state TestFactory.exampleState in
     makeOne TestFactory.program 5 None) pristine = Returns (Some model1) w1 ∧
    heap w1 !! model1 =
      Some {[ "example" := VString "I AM AN EXAMPLE";
              "state" := VString "This was an example state!" ]} ∧
    makeOne TestFactory.program 5 None w1 = Returns (Some model2) w2 ∧
    heap w2 !! model2 = Some {[ "example" := VString "I AM AN EXAMPLE" ]}.
Proof.
  eexists _, _, _, _. split_and!; [reflexivity | by vm_compute | reflexivity | by vm_compute].
Qed.

Example the_base_class_cannot_be_instantiated :
  constructor true pristine =
  Throws (ErrorObj "Abstract class cannot be instantiated directly.") pristine.
Proof. reflexivity. Qed.

(** * Further properties of the class *)

(** ** count: which numbers it accepts *)

Lemma lt_Finite_1 (q : Q) : lt (Finite q) (of_Z 1) = true ↔ (q < 1)%Q.
Proof. unfold lt, of_Z, Qlt. simpl. by rewrite Z.ltb_lt. Qed.

Lemma lt_1_below_1 (amount : number) : lt amount (of_Z 1) = true ↔ below_1 amount.
Proof.
  destruct amount as [q| | |]; simpl; [apply lt_Finite_1|done..].
Qed.

(** X2: [count] throws for exactly the numbers below 1, the finite ones
    less than 1 (fractions such as 0.5 included) and [-Infinity], and leaves
    the world as it is; every other number, so every finite number from 1 on,
    whole or not, [Infinity] and NaN, becomes the pending count. *)
Theorem count_rejects_below_1 (amount : number) (w : world) :
  (below_1 amount →
   count amount w = Throws (ErrorObj "Count must be greater than 0") w) ∧
  (¬ below_1 amount →
   count amount w =
   Returns This
     (set_this {| stateCallbacks := stateCallbacks (this w);
                  instances := amount |} w)).
Proof.
  unfold count. split; intros H.
  - apply lt_1_below_1 in H. by rewrite H.
  - destruct (lt amount (of_Z 1)) eqn:E; [|done].
    by apply lt_1_below_1 in E.
Qed.

Lemma count_rejects_below_1_witness :
  (below_1 (Finite (1 # 2)) ∧ below_1 NegInfinity ∧
   ¬ below_1 (Finite (3 # 2)) ∧ ¬ below_1 PosInfinity) ∧
  count (Finite (1 # 2)) configured =
    Throws (ErrorObj "Count must be greater than 0") configured ∧
  count NegInfinity configured =
    Throws (ErrorObj "Count must be greater than 0") configured ∧
  instances (this (world_after pristine (count (Finite (3 # 2)) pristine)))
    = Finite (3 # 2) ∧
  instances (this (world_after pristine (count PosInfinity pristine)))
    = PosInfinity.
Proof.
  assert (below_1 (Finite (1 # 2))) as H1 by reflexivity.
  assert (below_1 NegInfinity) as H2 by exact I.
  assert (¬ below_1 (Finite (3 # 2))) as H3 by (by intros H).
  assert (¬ below_1 PosInfinity) as H4 by (by intros H).
  split; [done|]. split_and!.
  - exact (proj1 (count_rejects_below_1 (Finite (1 # 2)) configured) H1).
  - exact (proj1 (count_rejects_below_1 NegInfinity configured) H2).
  - by rewrite (proj2 (count_rejects_below_1 (Finite (3 # 2)) pristine) H3).
  - by rewrite (proj2 (count_rejects_below_1 PosInfinity pristine) H4).
Defined.

(** ** make: counts that are not whole, and Infinity *)

(** For a whole index, [i < q] is [i < ceiling q]. *)
Lemma lt_of_Z_Finite (i : Z) (q : Q) :
  lt (of_Z i) (Finite q) = (i <? Qceiling q).
Proof.
  destruct q as [n d]. unfold lt, of_Z, Qceiling, Qfloor. simpl.
  rewrite Z.mul_1_r.
  pose proof (Z.div_mod (- n) (Z.pos d) ltac:(lia)) as Hdiv.
  pose proof (Z.mod_pos_bound (- n) (Z.pos d) ltac:(lia)) as Hmod.
  destruct (Z.ltb_spec (i * Z.pos d) n), (Z.ltb_spec i (- (- n `div` Z.pos d)));
    try done; nia.
Qed.

(** The loop with any pending count whose comparison with whole indices is
    the comparison with the whole number [N]. *)
Lemma make_loop_runs_to P overrides (N : Z) :
  builder_untouched P → never_throws P →
  ∀ (k : nat) fuel i output w,
    (∀ j, lt (of_Z j) (instances (this w)) = (j <? N)) →
    N = i + Z.of_nat k →
    (k < fuel)%nat →
    ∃ models w',
      make_loop P fuel i overrides output w = Returns (output ++ models) w' ∧
      length models = k ∧ this w' = this w.
Proof.
  intros Hleave Hret. induction k as [|k IH]; intros fuel i output w Hlt HN Hfuel;
    (destruct fuel as [|fuel]; [lia|]); simpl; rewrite Hlt.
  - rewrite (proj2 (Z.ltb_ge _ _)) by lia.
    exists [], w. by rewrite app_nil_r.
  - rewrite (proj2 (Z.ltb_lt _ _)) by lia.
    destruct (always_returns_make_instance P overrides Hret w) as (l & w1 & Hl).
    pose proof (leaves_builder_make_instance P overrides Hleave w) as Hthis.
    rewrite Hl in Hthis; simpl in Hthis.
    destruct (IH fuel (i + 1) (output ++ [l]) w1)
      as (models & w' & Hloop & Hlen & Hw');
      [by rewrite Hthis | lia | lia |].
    exists (l :: models), w'. unfold bind. rewrite Hl, Hloop.
    rewrite <- app_assoc. simpl. split_and!; [done | by rewrite Hlen | congruence].
Qed.

(** X4: a count that is not whole is rounded up.  For a finite [q >= 1],
    whole or not, and user code that neither throws nor touches the builder,
    [count(q).make()] returns [ceiling q] models: [count(2.5).make()] returns
    3. *)
Theorem count_fraction_rounds_up (P : Program) (fuel : nat)
    (overrides : option loc) (q : Q) (w : world) :
  (1 <= q)%Q → builder_untouched P → never_throws P →
  (Z.to_nat (Qceiling q) < fuel)%nat →
  ∃ output w',
    (let! _ := count (Finite q) in make P fuel overrides) w = Returns output w' ∧
    Z.of_nat (length output) = Qceiling q.
Proof.
  intros Hq Hleave Hret Hfuel.
  assert (lt (Finite q) (of_Z 1) = false) as Hguard.
  { destruct (lt (Finite q) (of_Z 1)) eqn:E; [|done].
    apply lt_Finite_1 in E. by apply Qlt_not_le in E. }
  assert (1 ≤ Qceiling q) as Hceil.
  { rewrite <- (Qceiling_Z 1). by apply Qceiling_resp_le. }
  set (w0 := set_this {| stateCallbacks := stateCallbacks (this w);
                         instances := Finite q |} w).
  destruct (make_loop_runs_to P overrides (Qceiling q) Hleave Hret
              (Z.to_nat (Qceiling q)) fuel 0 [] w0)
    as (models & w1 & Hloop & Hlen & _);
    [intros j; apply lt_of_Z_Finite | lia | done |].
  exists models, (set_this initial w1). split; [|lia].
  unfold bind, count. rewrite Hguard. fold w0.
  apply make_Returns, make_try_Returns. eauto.
Qed.

Lemma count_fraction_rounds_up_witness :
  ((1 <= 5 # 2)%Q ∧ (Z.to_nat (Qceiling (5 # 2)) < 5)%nat) ∧
  ∃ output w',
    (let! _ := count (Finite (5 # 2)) in make TestFactory.program 5 None) pristine
      = Returns output w' ∧
    Z.of_nat (length output) = 3.
Proof.
  assert (1 <= 5 # 2)%Q as Hq by (by intros H).
  assert (Z.to_nat (Qceiling (5 # 2)) < 5)%nat as Hfuel by (vm_compute; lia).
  split; [done|].
  exact (count_fraction_rounds_up TestFactory.program 5 None (5 # 2) pristine
           Hq TestFactory_builder_untouched TestFactory_never_throws Hfuel).
Defined.

(** X5: [count(Infinity)] is accepted, and the loop of the [make] that
    follows has no last iteration: with user code that returns and leaves the
    builder alone, [count(Infinity).make()] neither returns nor throws,
    however much fuel it is given. *)
Theorem count_Infinity_never_ends (P : Program) (fuel : nat)
    (overrides : option loc) (w : world) :
  builder_untouched P → never_throws P →
  (let! _ := count PosInfinity in make P fuel overrides) w = OutOfFuel.
Proof.
  intros Hleave Hret. unfold bind, count, make, make_try, bind.
  replace (lt PosInfinity (of_Z 1)) with false by reflexivity.
  by rewrite (make_loop_Infinity P overrides Hleave Hret).
Qed.

Lemma count_Infinity_never_ends_witness :
  builder_untouched TestFactory.program ∧ never_throws TestFactory.program ∧
  (let! _ := count PosInfinity in make TestFactory.program 100 None) pristine
    = OutOfFuel.
Proof.
  split_and!; [apply TestFactory_builder_untouched | apply TestFactory_never_throws |].
  exact (count_Infinity_never_ends TestFactory.program 100 None pristine
           TestFactory_builder_untouched TestFactory_never_throws).
Defined.

(** ** make: what it allocates and what it leaves alone *)

(** The loop keeps the objects of the heap [h0] it was called in as they
    were, and adds to [output] objects that are new with respect to [h0] and
    different from one another. *)
Lemma make_loop_allocates P overrides (h0 : heap_t) cs Ts :
  fresh_blueprint P →
  Forall2 (computes P) cs Ts →
  ∀ fuel i output w output' w',
    stateCallbacks (this w) = cs →
    (∀ l, is_Some (h0 !! l) → heap w !! l = h0 !! l) →
    valid_overrides overrides (mkWorld h0 (this w)) →
    NoDup output →
    (∀ model, model ∈ output → h0 !! model = None ∧ is_Some (heap w !! model)) →
    make_loop P fuel i overrides output w = Returns output' w' →
    (∀ l, is_Some (h0 !! l) → heap w' !! l = h0 !! l) ∧
    NoDup output' ∧
    (∀ model, model ∈ output' → h0 !! model = None ∧ is_Some (heap w' !! model)).
Proof.
  intros Hfresh Hcs. induction fuel as [|fuel IH];
    intros i output w output' w' Hthis Hold0 Hvalid Hnodup Hout; simpl; [done|].
  destruct (lt (of_Z i) (instances (this w))) eqn:Hlt; [|by intros [= <- <-]].
  intros (model & w1 & Hbody & Hloop)%bind_Returns.
  assert (valid_overrides overrides w) as Hvalidw.
  { destruct overrides as [o|]; [|done]. simpl in *. by rewrite Hold0. }
  destruct (make_instance_computes P overrides Ts w model w1)
    as (Hthis1 & Hnew & Hold & blueprint & wb & B & Hdef & HB & Hmodel);
    [done | by rewrite Hthis | done..|].
  apply (IH (i + 1) (output ++ [model]) w1 output' w'); [| | | | |done].
  - congruence.
  - intros l Hl. rewrite Hold; [by apply Hold0 | by rewrite Hold0].
  - by rewrite Hthis1.
  - apply NoDup_app. split_and!; [done | | apply NoDup_singleton].
    intros l Hl ->%list_elem_of_singleton.
    destruct (Hout model Hl) as [_ Hsome]. rewrite Hnew in Hsome. by destruct Hsome.
  - intros l [Hl| ->%list_elem_of_singleton]%elem_of_app.
    + destruct (Hout l Hl) as [Hnone Hsome]. split; [done|]. by rewrite Hold.
    + split; [|by rewrite Hmodel].
      destruct (h0 !! model) eqn:E; [|done].
      rewrite <- (Hold0 model), Hnew in E; [done | by rewrite E].
Qed.

Lemma make_allocates P fuel overrides Ts w output w' :
  fresh_blueprint P →
  Forall2 (computes P) (stateCallbacks (this w)) Ts →
  valid_overrides overrides w →
  make P fuel overrides w = Returns output w' →
  (∀ l, is_Some (heap w !! l) → heap w' !! l = heap w !! l) ∧
  NoDup output ∧
  (∀ model, model ∈ output → heap w !! model = None ∧ is_Some (heap w' !! model)).
Proof.
  intros Hfresh Hcs Hvalid (w1 & Hloop & ->)%make_Returns%make_try_Returns. simpl.
  eapply (make_loop_allocates P overrides (heap w) _ Ts Hfresh Hcs) in Hloop;
    [done | done | done | by destruct overrides | apply NoDup_nil_2 |].
  by intros model Hin%elem_of_nil.
Qed.

(** X6: the models [make] returns are new objects, different from one
    another: with a blueprint that returns fresh objects and callbacks that
    compute functions (in place or by copy), no model of the batch is an
    object that existed before the call (so none is the overrides object), no
    two indices of the batch hold the same object, and each is in the heap
    when the call returns. *)
Theorem make_returns_new_models (P : Program) (fuel : nat)
    (overrides : option loc) (Ts : list (obj → obj)) (w : world)
    (output : list loc) (w' : world) :
  fresh_blueprint P →
  Forall2 (computes P) (stateCallbacks (this w)) Ts →
  valid_overrides overrides w →
  make P fuel overrides w = Returns output w' →
  NoDup output ∧
  (∀ model, model ∈ output →
     heap w !! model = None ∧ is_Some (heap w' !! model) ∧
     overrides ≠ Some model).
Proof.
  intros Hfresh Hcs Hvalid Hmake.
  destruct (make_allocates P fuel overrides Ts w output w' Hfresh Hcs Hvalid Hmake)
    as (_ & Hnodup & Hnew).
  split; [done|]. intros model Hin. destruct (Hnew model Hin) as [Hnone Hsome].
  split_and!; [done..|]. intros ->. destruct Hvalid as [x Hx].
  by rewrite Hnone in Hx.
Qed.

Lemma make_returns_new_models_witness :
  fresh_blueprint TestFactory.program ∧
  Forall2 (computes TestFactory.program) (stateCallbacks (this configured))
    [TestFactory.set_state] ∧
  valid_overrides (Some 1%positive) configured ∧
  ∃ output w',
    make TestFactory.program 5 (Some 1%positive) configured = Returns output w' ∧
    length output = 3%nat ∧ NoDup output.
Proof.
  assert (valid_overrides (Some 1%positive) configured) as Hvalid by (by eexists).
  assert (Forall2 (computes TestFactory.program) (stateCallbacks (this configured))
            [TestFactory.set_state])
    as Hcs by (constructor; [apply TestFactory_exampleState_computes | constructor]).
  split_and!; [apply TestFactory_fresh_blueprint | done | done |].
  eexists _, _. split; [vm_compute; reflexivity|]. split; [reflexivity|].
  refine (proj1 (make_returns_new_models TestFactory.program 5 (Some 1%positive)
                   [TestFactory.set_state] configured _ _
                   TestFactory_fresh_blueprint Hcs Hvalid _)).
  vm_compute; reflexivity.
Defined.

(** X7: a [make] that returns has changed no object that existed before
    the call, when the blueprint returns fresh objects and every pending
    callback computes a function, be it by updating its argument in place:
    the callbacks only ever see objects made during the call. *)
Theorem make_leaves_heap (P : Program) (fuel : nat)
    (overrides : option loc) (Ts : list (obj → obj)) (w : world)
    (output : list loc) (w' : world) :
  fresh_blueprint P →
  Forall2 (computes P) (stateCallbacks (this w)) Ts →
  valid_overrides overrides w →
  make P fuel overrides w = Returns output w' →
  ∀ l, is_Some (heap w !! l) → heap w' !! l = heap w !! l.
Proof.
  intros Hfresh Hcs Hvalid Hmake.
  by destruct (make_allocates P fuel overrides Ts w output w' Hfresh Hcs Hvalid Hmake)
    as (Hframe & _ & _).
Qed.

Lemma make_leaves_heap_witness :
  fresh_blueprint TestFactory.program ∧
  Forall2 (computes TestFactory.program) (stateCallbacks (this configured))
    [TestFactory.set_state] ∧
  valid_overrides (Some 1%positive) configured ∧
  is_Some (heap configured !! 1%positive) ∧
  ∃ output w',
    make TestFactory.program 5 (Some 1%positive) configured = Returns output w' ∧
    heap w' !! 1%positive = heap configured !! 1%positive.
Proof.
  assert (valid_overrides (Some 1%positive) configured) as Hvalid by (by eexists).
  assert (Forall2 (computes TestFactory.program) (stateCallbacks (this configured))
            [TestFactory.set_state])
    as Hcs by (constructor; [apply TestFactory_exampleState_computes | constructor]).
  split_and!; [apply TestFactory_fresh_blueprint | done | done | done |].
  eexists _, _. split; [vm_compute; reflexivity|].
  eapply (make_leaves_heap TestFactory.program 5 (Some 1%positive)
            [TestFactory.set_state] configured _ _
            TestFactory_fresh_blueprint Hcs Hvalid); [|done].
  vm_compute; reflexivity.
Defined.

(** ** make: the model is the blueprint's object *)

Lemma make_instance_no_callbacks P overrides w model w' :
  leaves_builder (definition P) →
  stateCallbacks (this w) = [] →
  make_instance P overrides w = Returns model w' →
  this w' = this w ∧ ∃ w1, definition P w = Returns model w1.
Proof.
  intros Hleave Hcs. unfold make_instance.
  intros (blueprint & w1 & Hdef & H)%bind_Returns.
  apply bind_Returns in H as (model0 & w2 & [= <- <-] & H).
  apply bind_Returns in H as (finalModel & w3 & Hred & [= <- <-]).
  pose proof (Hleave w) as Hthis. rewrite Hdef in Hthis. simpl in Hthis, Hred.
  rewrite Hthis, Hcs in Hred. injection Hred as <- <-. eauto.
Qed.

Lemma make_loop_no_callbacks P overrides w0 :
  leaves_builder (definition P) →
  stateCallbacks (this w0) = [] →
  ∀ fuel n i output w output' w',
    loop_reaches P overrides n 0 [] w0 i output w →
    length output = n →
    this w = this w0 →
    (∀ k model, output !! k = Some model →
       ∃ j out wk w1, loop_reaches P overrides k 0 [] w0 j out wk ∧
                      definition P wk = Returns model w1) →
    make_loop P fuel i overrides output w = Returns output' w' →
    ∀ k model, output' !! k = Some model →
      ∃ j out wk w1, loop_reaches P overrides k 0 [] w0 j out wk ∧
                     definition P wk = Returns model w1.
Proof.
  intros Hleave Hcs. induction fuel as [|fuel IH];
    intros n i output w output' w' Hreach Hlen Hthis Hout; simpl; [done|].
  destruct (lt (of_Z i) (instances (this w))) eqn:Hlt; [|by intros [= <- <-]].
  intros (model & w1 & Hbody & Hloop)%bind_Returns.
  destruct (make_instance_no_callbacks P overrides w model w1)
    as (Hthis1 & wb & Hdef); [done | congruence | done |].
  apply (IH (S n) (i + 1) (output ++ [model]) w1 output' w'); [| | | |done].
  - by eapply loop_reaches_snoc.
  - rewrite length_app. simpl. lia.
  - congruence.
  - intros k m [Hk|[Hk Hm]]%lookup_app_Some; [by apply Hout|].
    rewrite Hlen in Hk, Hm.
    destruct (k - n)%nat as [|d] eqn:Hd; [|by destruct d].
    injection Hm as <-. replace k with n by lia.
    by exists i, output, w, wb.
Qed.

(** X8: [make] does not copy the blueprint's object.  With no state
    callback pending and a blueprint that leaves the builder alone, the model
    at index [k] of what [make] returns is the very reference the blueprint
    returned in iteration [k]: [Object.assign] writes the overrides into that
    object and returns it. *)
Theorem make_returns_blueprint_object (P : Program) (fuel : nat)
    (overrides : option loc) (w : world) (output : list loc) (w' : world) :
  leaves_builder (definition P) →
  stateCallbacks (this w) = [] →
  make P fuel overrides w = Returns output w' →
  ∀ k model, output !! k = Some model →
    ∃ i out wk w1,
      loop_reaches P overrides k 0 [] w i out wk ∧
      definition P wk = Returns model w1.
Proof.
  intros Hleave Hcs (w1 & Hloop & ->)%make_Returns%make_try_Returns k model Hk.
  by eapply (make_loop_no_callbacks P overrides w Hleave Hcs fuel 0%nat 0 [] w
               output w1); [constructor|..].
Qed.

Lemma make_returns_blueprint_object_witness :
  leaves_builder (definition TestFactory.program) ∧
  stateCallbacks (this with_FooBar) = [] ∧
  ∃ output w' model,
    make TestFactory.program 5 (Some 1%positive) with_FooBar = Returns output w' ∧
    output !! 0%nat = Some model ∧
    ∃ i out wk w1,
      loop_reaches TestFactory.program (Some 1%positive) 0 0 [] with_FooBar i out wk ∧
      definition TestFactory.program wk = Returns model w1.
Proof.
  split_and!; [apply TestFactory_builder_untouched | done |].
  eexists _, _, _. split; [vm_compute; reflexivity|]. split; [reflexivity|].
  refine (make_returns_blueprint_object TestFactory.program 5 (Some 1%positive)
            with_FooBar _ _ (proj1 TestFactory_builder_untouched) eq_refl _
            0%nat _ _); [vm_compute; reflexivity | reflexivity].
Defined.

(** ** make: a callback that throws stays pending *)

Lemma reduce_throws P c callbacks :
  (∀ d l, ends (callback P d l)) →
  (∀ acc, always_throws (callback P c acc)) →
  c ∈ callbacks →
  ∀ acc w, ∃ e w', reduce P callbacks acc w = Throws e w'.
Proof.
  intros Hends Hthrows. induction callbacks as [|d rest IH]; intros Hin acc w.
  - by apply elem_of_nil in Hin.
  - simpl. unfold bind. destruct (callback P d acc w) as [acc1 w1|e w1|] eqn:E.
    + apply elem_of_cons in Hin as [->|Hin]; [|by apply IH].
      destruct (Hthrows acc w) as (e & w' & He). congruence.
    + eauto.
    + by apply Hends in E.
Qed.

Lemma make_throws_pending P fuel overrides c w :
  builder_untouched P → user_code_ends P →
  (∀ acc, always_throws (callback P c acc)) →
  c ∈ stateCallbacks (this w) → count_at_least_1 w →
  ∃ e w', make P (S fuel) overrides w = Throws e w' ∧ this w' = this w.
Proof.
  intros Hleave [Hdef Hcb] Hthrows Hin Hge%ge_1_lt_0.
  assert (∃ e w', make_instance P overrides w = Throws e w') as (e & w' & Hbody).
  { unfold make_instance, bind.
    destruct (definition P w) as [blueprint w1|e w1|] eqn:E; [|by eauto|by apply Hdef in E].
    pose proof (proj1 Hleave w) as Hthis. rewrite E in Hthis. simpl in Hthis. simpl.
    rewrite Hthis.
    destruct (reduce_throws P c (stateCallbacks (this w)) Hcb Hthrows Hin blueprint
                (set_heap (<[blueprint := properties overrides (heap w1)
                                          ∪ (heap w1 !!! blueprint)]> (heap w1)) w1))
      as (e & w' & ->). eauto. }
  assert (make_loop P (S fuel) 0 overrides [] w = Throws e w') as Hloop.
  { simpl. rewrite Hge. unfold bind. by rewrite Hbody. }
  destruct (make_try_Throws_make P (S fuel) overrides w e w') as [e' Hmake];
    [by apply make_try_Throws|].
  exists e', w'. split; [done|].
  pose proof (leaves_builder_make_loop P (S fuel) overrides Hleave 0 [] w) as H.
  by rewrite Hloop in H.
Qed.

(** X9: a pending state callback that always throws is never cleared.
    When user code leaves the builder alone and the pending count is at least
    1, [make] throws, the builder is as pending as before, and so every later
    [make] on the builder throws as well, whatever its overrides. *)
Theorem throwing_state_stays_pending (P : Program) (fuel : nat)
    (overrides : option loc) (c : cbid) (w : world) :
  builder_untouched P → user_code_ends P →
  (∀ acc, always_throws (callback P c acc)) →
  c ∈ stateCallbacks (this w) → count_at_least_1 w →
  ∃ e w',
    make P (S fuel) overrides w = Throws e w' ∧ this w' = this w ∧
    ∀ fuel2 overrides2, ∃ e2 w2,
      make P (S fuel2) overrides2 w' = Throws e2 w2 ∧ this w2 = this w.
Proof.
  intros Hleave Hends Hthrows Hin Hge.
  destruct (make_throws_pending P fuel overrides c w Hleave Hends Hthrows Hin Hge)
    as (e & w' & Hmake & Hthis).
  exists e, w'. split_and!; [done..|]. intros fuel2 overrides2.
  destruct (make_throws_pending P fuel2 overrides2 c w' Hleave Hends Hthrows)
    as (e2 & w2 & Hmake2 & Hthis2).
  - by rewrite Hthis.
  - unfold count_at_least_1. by rewrite Hthis.
  - exists e2, w2. split; [done | congruence].
Qed.

Lemma ThrowingState_well_behaved :
  builder_untouched ThrowingState.program ∧ user_code_ends ThrowingState.program ∧
  ∀ acc, always_throws (callback ThrowingState.program 0%nat acc).
Proof.
  split_and!.
  - split; [by intros w | by intros c l w].
  - split; [by intros w | by intros c l w].
  - intros acc w. by eexists _, _.
Qed.

Lemma throwing_state_stays_pending_witness :
  (builder_untouched ThrowingState.program ∧
   user_code_ends ThrowingState.program ∧
   (∀ acc, always_throws (callback ThrowingState.program 0%nat acc)) ∧
   0%nat ∈ stateCallbacks (this configured) ∧ count_at_least_1 configured) ∧
  ∃ e w',
    make ThrowingState.program 1 None configured = Throws e w' ∧
    this w' = this configured ∧
    ∀ fuel2 overrides2, ∃ e2 w2,
      make ThrowingState.program (S fuel2) overrides2 w' = Throws e2 w2 ∧
      this w2 = this configured.
Proof.
  destruct ThrowingState_well_behaved as (Hleave & Hends & Hthrows).
  assert (0%nat ∈ stateCallbacks (this configured)) as Hin by apply list_elem_of_here.
  assert (count_at_least_1 configured) as Hge by reflexivity.
  split; [done|].
  exact (throwing_state_stays_pending ThrowingState.program 0 None 0%nat configured
           Hleave Hends Hthrows Hin Hge).
Defined.

(** ** A builder with nothing pending *)

(** On a builder with nothing pending, a [make] that returns has built one
    model, the blueprint's output merged with the overrides. *)
Lemma idle_make P fuel overrides w output w' :
  fresh_blueprint P →
  this w = initial →
  valid_overrides overrides w →
  make P fuel overrides w = Returns output w' →
  ∃ model B,
    output = [model] ∧
    blueprint_output P overrides w 0 B ∧
    heap w' !! model = Some (properties overrides (heap w) ∪ B).
Proof.
  intros Hfresh Hidle Hvalid Hmake.
  pose proof (make_computes P fuel overrides [] w output w' Hfresh
                ltac:(by rewrite Hidle) Hvalid Hmake) as Hbuilt.
  apply make_Returns, make_try_Returns in Hmake as (w1 & Hloop & ->).
  destruct fuel as [|fuel]; [done|]. simpl in Hloop.
  rewrite Hidle in Hloop. simpl in Hloop. rewrite ?lt_of_Z in Hloop. simpl in Hloop.
  apply bind_Returns in Hloop as (model & w2 & Hbody & Hloop).
  destruct (make_instance_computes P overrides [] w model w2)
    as (Hthis & _); [done | by rewrite Hidle | done..|].
  destruct fuel as [|fuel]; [done|]. simpl in Hloop.
  rewrite Hthis, Hidle in Hloop. simpl in Hloop. rewrite ?lt_of_Z in Hloop.
  simpl in Hloop. injection Hloop as <- <-.
  destruct (Hbuilt 0%nat model eq_refl) as (B & HB & Hmodel).
  by exists model, B.
Qed.

(** X1: the class cannot be instantiated directly, and a builder of a
    subclass starts with nothing pending: [new Factory()] throws
    ['Abstract class cannot be instantiated directly.'], and on a new builder
    of a subclass whose code neither throws nor touches the builder, [make]
    returns exactly one model and [makeOne] returns that model. *)
Theorem new_builder_makes_one (P : Program) (fuel : nat)
    (overrides : option loc) (w : world) :
  builder_untouched P → never_throws P → (2 ≤ fuel)%nat →
  (∃ w',
     constructor true w =
       Throws (ErrorObj "Abstract class cannot be instantiated directly.") w') ∧
  ∃ model w',
    (let! _ := constructor false in make P fuel overrides) w
      = Returns [model] w' ∧
    (let! _ := constructor false in makeOne P fuel overrides) w
      = Returns (Some model) w'.
Proof.
  intros Hleave Hret Hfuel. split; [by eexists|].
  destruct (make_loop_runs P overrides Hleave Hret 1 fuel 0 [] (set_this initial w))
    as (models & w1 & Hloop & _ & Hlen & _); [done | lia |].
  destruct models as [|model [|]]; try done. simpl in Hloop.
  assert (make P fuel overrides (set_this initial w)
          = Returns [model] (set_this initial w1)) as Hmake
    by (apply make_Returns, make_try_Returns; eauto).
  exists model, (set_this initial w1). split.
  - unfold bind at 1. simpl. exact Hmake.
  - unfold bind at 1. simpl. by rewrite makeOne_eq, Hmake.
Qed.

Lemma new_builder_makes_one_witness :
  (builder_untouched TestFactory.program ∧ never_throws TestFactory.program ∧
   (2 ≤ 2)%nat) ∧
  ∃ model w',
    (let! _ := constructor false in make TestFactory.program 2 None) configured
      = Returns [model] w'.
Proof.
  split; [split_and!; [apply TestFactory_builder_untouched
                      | apply TestFactory_never_throws | lia]|].
  destruct (proj2 (new_builder_makes_one TestFactory.program 2 None configured
                     TestFactory_builder_untouched TestFactory_never_throws
                     ltac:(lia)))
    as (model & w' & Hmake & _).
  by exists model, w'.
Defined.

(** X10: nothing carries over from one build to the next.  After a
    [make] that returned, whatever count and callbacks were pending for it,
    the next [make] that returns has built one model, the blueprint's output
    merged with its own overrides, with no callback applied. *)
Theorem make_after_make_is_plain (P : Program) (fuel fuel2 : nat)
    (overrides overrides2 : option loc) (w : world)
    (output : list loc) (w1 : world) (output2 : list loc) (w2 : world) :
  fresh_blueprint P →
  make P fuel overrides w = Returns output w1 →
  valid_overrides overrides2 w1 →
  make P fuel2 overrides2 w1 = Returns output2 w2 →
  ∃ model B,
    output2 = [model] ∧
    blueprint_output P overrides2 w1 0 B ∧
    heap w2 !! model = Some (properties overrides2 (heap w1) ∪ B).
Proof.
  intros Hfresh (w0 & _ & ->)%make_Returns%make_try_Returns Hvalid Hmake2.
  by eapply idle_make.
Qed.

Lemma make_after_make_is_plain_witness :
  fresh_blueprint TestFactory.program ∧
  ∃ output w1 output2 w2 model B,
    make TestFactory.program 5 (Some 1%positive) configured = Returns output w1 ∧
    length output = 3%nat ∧
    valid_overrides None w1 ∧
    make TestFactory.program 5 None w1 = Returns output2 w2 ∧
    output2 = [model] ∧
    heap w2 !! model = Some (properties None (heap w1) ∪ B).
Proof.
  split; [apply TestFactory_fresh_blueprint|].
  destruct (make TestFactory.program 5 (Some 1%positive) configured)
    as [output w1| |] eqn:Hmake; [|by vm_compute in Hmake..].
  destruct (make TestFactory.program 5 None w1)
    as [output2 w2| |] eqn:Hmake2;
    [|vm_compute in Hmake; injection Hmake as <- <-; by vm_compute in Hmake2..].
  destruct (make_after_make_is_plain TestFactory.program 5 5 (Some 1%positive) None
              configured output w1 output2 w2 TestFactory_fresh_blueprint
              Hmake I Hmake2) as (model & B & Hout & _ & Hmodel).
  exists output, w1, output2, w2, model, B. split_and!; try done.
  vm_compute in Hmake. by injection Hmake as <- <-.
Defined.

(** ** state: the callback registered last has the last word *)

Lemma apply_in_order_app (Ts : list (obj → obj)) (T : obj → obj) (M : obj) :
  apply_in_order (Ts ++ [T]) M = T (apply_in_order Ts M).
Proof. revert M. induction Ts as [|T0 Ts IH]; intros M; simpl; [done | apply IH]. Qed.

(** X11: what the callback registered last writes is what the models
    hold.  If that callback computes a function that always sets [key] to
    [v], every model [make] returns after [state(c)] has [v] at [key],
    whatever the blueprint, the overrides and the callbacks registered before
    put there. *)
Theorem last_state_wins (P : Program) (fuel : nat) (overrides : option loc)
    (c : cbid) (Ts : list (obj → obj)) (T : obj → obj) (key : string) (v : value)
    (w : world) (output : list loc) (w' : world) :
  fresh_blueprint P →
  Forall2 (computes P) (stateCallbacks (this w)) Ts →
  computes P c T →
  (∀ m, T m !! key = Some v) →
  valid_overrides overrides w →
  (let! _ := state c in make P fuel overrides) w = Returns output w' →
  ∀ k model, output !! k = Some model →
    ∃ M, heap w' !! model = Some M ∧ M !! key = Some v.
Proof.
  intros Hfresh Hcs Hc HT Hvalid Hmake k model Hk.
  unfold bind, state in Hmake.
  eapply (make_computes P fuel overrides (Ts ++ [T])) in Hmake as (B & _ & Hmodel);
    [| done | | by destruct overrides | exact Hk].
  - eexists. split; [exact Hmodel|]. rewrite apply_in_order_app. apply HT.
  - simpl. apply Forall2_app; [done|]. by constructor.
Qed.

Lemma last_state_wins_witness :
  fresh_blueprint TestFactory.program ∧
  computes TestFactory.program TestFactory.exampleState TestFactory.set_state ∧
  (∀ m, TestFactory.set_state m !! "state"
        = Some (VString "This was an example state!")) ∧
  is_Some (heap with_FooBar !! 1%positive) ∧
  ∃ output w' model M,
    (let! _ := state TestFactory.exampleState in
     make TestFactory.program 5 (Some 1%positive)) with_FooBar = Returns output w' ∧
    output !! 0%nat = Some model ∧
    heap w' !! model = Some M ∧
    M !! "state" = Some (VString "This was an example state!").
Proof.
  assert (∀ m, TestFactory.set_state m !! "state"
               = Some (VString "This was an example state!")) as HT
    by (intros m; apply lookup_insert_eq).
  assert (valid_overrides (Some 1%positive) with_FooBar) as Hvalid by (by eexists).
  split_and!; [apply TestFactory_fresh_blueprint
              | apply TestFactory_exampleState_computes | done | done |].
  destruct ((let! _ := state TestFactory.exampleState in
             make TestFactory.program 5 (Some 1%positive)) with_FooBar)
    as [output w'| |] eqn:Hmake; [|by vm_compute in Hmake..].
  assert (output !! 0%nat = Some 2%positive) as Hk
    by (vm_compute in Hmake; by injection Hmake as <- <-).
  destruct (last_state_wins TestFactory.program 5 (Some 1%positive)
              TestFactory.exampleState [] TestFactory.set_state "state"
              (VString "This was an example state!") with_FooBar output w'
              TestFactory_fresh_blueprint ltac:(constructor)
              TestFactory_exampleState_computes HT Hvalid Hmake 0%nat 2%positive Hk)
    as (M & HM & Hstate).
  by exists output, w', 2%positive, M.
Defined.

(** ** count and state in a chain *)

(** X3: [count] and [state] configure separate fields.  With an accepted
    amount, [count(a).state(c)] and [state(c).count(a)] leave the same
    builder, with [c] appended to the pending callbacks and [a] pending; of
    two accepted counts the later one stands.  With a rejected amount,
    [state(c).count(a)] throws after [c] was registered, and [c] stays
    pending. *)
Theorem count_state_chain (a b : number) (c : cbid) (w : world) :
  (¬ below_1 a →
   (let! _ := count a in state c) w = (let! _ := state c in count a) w ∧
   (let! _ := state c in count a) w =
     Returns This (set_this {| stateCallbacks := stateCallbacks (this w) ++ [c];
                               instances := a |} w)) ∧
  (¬ below_1 a → ¬ below_1 b →
   (let! _ := count a in count b) w = count b w) ∧
  (below_1 a →
   (let! _ := state c in count a) w =
     Throws (ErrorObj "Count must be greater than 0")
       (set_this {| stateCallbacks := stateCallbacks (this w) ++ [c];
                    instances := instances (this w) |} w)).
Proof.
  assert (∀ n, ¬ below_1 n → lt n (of_Z 1) = false) as Hok.
  { intros n Hn. destruct (lt n (of_Z 1)) eqn:E; [|done]. by apply lt_1_below_1 in E. }
  split_and!.
  - intros Ha. unfold bind, count, state. simpl. by rewrite (Hok a Ha).
  - intros Ha Hb. unfold bind, count. simpl. by rewrite (Hok a Ha), (Hok b Hb).
  - intros Ha%lt_1_below_1. unfold bind, count, state. simpl. by rewrite Ha.
Qed.

Lemma count_state_chain_witness :
  (¬ below_1 (of_Z 3) ∧ ¬ below_1 (of_Z 2) ∧ below_1 (of_Z 0)) ∧
  (let! _ := count (of_Z 3) in state 7%nat) pristine
    = (let! _ := state 7%nat in count (of_Z 3)) pristine ∧
  (let! _ := count (of_Z 3) in count (of_Z 2)) pristine = count (of_Z 2) pristine ∧
  stateCallbacks
    (this (world_after pristine
             ((let! _ := state 7%nat in count (of_Z 0)) pristine))) = [7%nat].
Proof.
  assert (¬ below_1 (of_Z 3)) as H3 by (by intros H).
  assert (¬ below_1 (of_Z 2)) as H2 by (by intros H).
  assert (below_1 (of_Z 0)) as H0 by reflexivity.
  split; [done|]. split_and!.
  - exact (proj1 (proj1 (count_state_chain (of_Z 3) (of_Z 2) 7%nat pristine) H3)).
  - exact (proj1 (proj2 (count_state_chain (of_Z 3) (of_Z 2) 7%nat pristine)) H3 H2).
  - by rewrite (proj2 (proj2 (count_state_chain (of_Z 0) (of_Z 2) 7%nat pristine)) H0).
Defined.

(** ** The factory of the test file *)

(** X12: the test factory, on any heap.  On a builder with nothing
    pending, [makeOne(overrides)] returns a new object holding
    [example: 'I AM AN EXAMPLE'] overridden by the overrides, and
    [exampleState().makeOne(overrides)] returns a new object holding the same
    with [state] set to ['This was an example state!'], whatever the overrides
    say about [state]; both leave every other object as it was and the builder
    with nothing pending. *)
Theorem TestFactory_makeOne (fuel : nat) (overrides : option loc) (w : world) :
  this w = initial →
  valid_overrides overrides w →
  let model := fresh (dom (heap w)) in
  let merged :=
    properties overrides (heap w) ∪ {[ "example" := VString "I AM AN EXAMPLE" ]} in
  makeOne TestFactory.program (S (S fuel)) overrides w
    = Returns (Some model)
        {| heap := <[model := merged]> (heap w); this := initial |} ∧
  (let! _ := state TestFactory.exampleState in
   makeOne TestFactory.program (S (S fuel)) overrides) w
    = Returns (Some model)
        {| heap := <[model := TestFactory.set_state merged]> (heap w);
           this := initial |}.
Proof.
  destruct w as [h f]. simpl. intros -> Hvalid.
  assert (h !! fresh (dom h) = None) as Hnew by apply not_elem_of_dom, is_fresh.
  set (l := fresh (dom h)) in *.
  assert (properties overrides (<[l := {["example" := VString "I AM AN EXAMPLE"]}]> h)
          = properties overrides h) as Hprops.
  { destruct overrides as [o|]; [|done]. simpl in *.
    rewrite lookup_total_insert_ne; [done|]. intros <-. rewrite Hnew in Hvalid.
    by destruct Hvalid. }
  split.
  - unfold makeOne, make, make_try, bind. simpl. fold l. rewrite Hprops.
    unfold ret, set_this, set_heap. simpl.
    by rewrite !lookup_total_insert_eq, !insert_insert_eq.
  - unfold bind, state, makeOne, make, make_try, bind. simpl. fold l. rewrite Hprops.
    unfold ret, set_this, set_heap. simpl.
    by rewrite !lookup_total_insert_eq, !insert_insert_eq.
Qed.

Lemma TestFactory_makeOne_witness :
  this with_FooBar = initial ∧ valid_overrides (Some 1%positive) with_FooBar ∧
  ∃ w',
    (let! _ := state TestFactory.exampleState in
     makeOne TestFactory.program 2 (Some 1%positive)) with_FooBar
      = Returns (Some 2%positive) w' ∧
    heap w' !! 2%positive =
      Some {[ "example" := VString "FooBar";
              "state" := VString "This was an example state!" ]}.
Proof.
  assert (valid_overrides (Some 1%positive) with_FooBar) as Hvalid by (by eexists).
  split_and!; [done | done |].
  eexists. split.
  - exact (proj2 (TestFactory_makeOne 0 (Some 1%positive) with_FooBar eq_refl Hvalid)).
  - by vm_compute.
Defined.
